(** * QiskitML: the hybrid quantum-classical layer of the PyTorch/Qiskit notebook

    A shallow embedding of the code cells of
    [TorchStuff/Machine learning with Qiskit and PyTorch.ipynb]:
    [to_numbers], the class [QiskitCircuit] (circuit construction, [bind],
    [run], [N_qubit_expectation_Z]), the autograd function [TorchCircuit]
    ([forward], [backward]) and the last two lines of [Net.forward].

    Conventions of the embedding.
    - Python floats and tensor entries are real numbers ([R]); rounding and
      the [float32] conversion of [.float()] are not modelled.  The one
      function whose stated range depends on rounding,
      [N_qubit_expectation_Z], is embedded a second time over binary64
      floats ([N_qubit_expectation_Z64]).
    - Python exceptions are values of [exn]; a computation returns a
      [result], and a stateful computation returns the state it reached
      together with its [result], so that what was mutated before an
      exception stays mutated.
    - The Aer simulator is a function [backend] from the index of the job,
      the circuit it is given and the shot count to a dictionary of counts.
      Every job is appended to a log. *)

From Stdlib Require Import Reals Lra Lia List String Ascii ZArith Bool.
From Stdlib Require PrimFloat.
Import ListNotations.

Open Scope R_scope.

(** ** Exceptions and results *)

Inductive exn : Type :=
| InvalidParameterCount (got : nat)
    (* ValueError of the unpacking [[self.theta] = to_numbers(parameters)] *)
| StaleStateError
    (* [forward_tensor, i = ctx.saved_tensors] with nothing saved *)
| AttributeError          (* [ctx.QiskitCirc] when the attribute is absent *)
| IndexError              (* subscript out of range *)
| KeyError                (* [counts[key]] for an absent key *)
| ValueError              (* [float(c)] for a character that is no digit *)
| ZeroDivisionError       (* [counts[key]/shots] with [shots = 0] *)
| ShapeError              (* tensor shapes that do not broadcast *)
| ReferenceError.         (* a reference to no tensor object *)

Inductive result (A : Type) : Type :=
| Ok (a : A)
| Raise (e : exn).

Arguments Ok {A} a.
Arguments Raise {A} e.

Definition rbind {A B : Type} (r : result A) (f : A -> result B) : result B :=
  match r with
  | Ok a => f a
  | Raise e => Raise e
  end.

Declare Scope result_scope.
Delimit Scope result_scope with res.
Notation "x <-? r ; k" := (rbind r (fun x => k))
  (at level 61, r at next level, right associativity) : result_scope.

(** A list comprehension whose body may raise: left to right, stopping at
    the first exception. *)
Fixpoint comprehension {A B : Type} (f : A -> result B) (l : list A)
  : result (list B) :=
  match l with
  | [] => Ok []
  | a :: l' =>
      (b <-? f a ; bs <-? comprehension f l' ; Ok (b :: bs))%res
  end.

(** ** Lists, strings and dictionaries as the code uses them *)

(** [l[k]] *)
Definition getitem {A : Type} (l : list A) (k : nat) : result A :=
  match nth_error l k with
  | Some a => Ok a
  | None => Raise IndexError
  end.

(** [l[k] = v], in place; the caller has read [l[k]] before, so [k] is in
    range at every use below. *)
Fixpoint setitem {A : Type} (l : list A) (k : nat) (v : A) : list A :=
  match l, k with
  | [], _ => []
  | _ :: l', O => v :: l'
  | a :: l', S k' => a :: setitem l' k' v
  end.

(** [key[i]] on a string *)
Definition str_getitem (key : string) (i : nat) : result ascii :=
  match String.get i key with
  | Some c => Ok c
  | None => Raise IndexError
  end.

(** [float(c)] for a one-character string [c]: the decimal digits convert,
    any other ASCII character raises. *)
Definition float_of_char (c : ascii) : result R :=
  let n := nat_of_ascii c in
  if (48 <=? n)%nat && (n <=? 57)%nat then Ok (INR (n - 48)) else Raise ValueError.

(** A dictionary of counts, in insertion order. *)
Definition Counts : Type := list (string * Z).

Definition keys (counts : Counts) : list string := map fst counts.

(** [counts[key]] *)
Fixpoint dict_getitem (counts : Counts) (key : string) : result Z :=
  match counts with
  | [] => Raise KeyError
  | (k, v) :: counts' =>
      if String.eqb k key then Ok v else dict_getitem counts' key
  end.

(** [a / b] on Python integers (true division) *)
Definition truediv (a b : Z) : result R :=
  if Z.eqb b 0 then Raise ZeroDivisionError else Ok (IZR a / IZR b).

(** [np.zeros(n)] and [expects += check] on arrays of one length *)
Definition np_zeros (n : nat) : list R := repeat 0 n.

Fixpoint np_add (xs ys : list R) : list R :=
  match xs, ys with
  | x :: xs', y :: ys' => (x + y) :: np_add xs' ys'
  | _, _ => []
  end.

(** ** [to_numbers] *)

Definition to_numbers (tensor_list : list R) : list R :=
  fold_left (fun num_list tensor => num_list ++ [tensor]) tensor_list [].

(** ** [QiskitCircuit.N_qubit_expectation_Z] *)

(** The list comprehension
    [[(float(key[i])-1/2)*2*perc for i in range(nr_qubits)]]. *)
Definition check_of (key : string) (perc : R) (nr_qubits : nat)
  : result (list R) :=
  comprehension
    (fun i => (c <-? str_getitem key i ;
               b <-? float_of_char c ;
               Ok ((b - 1 / 2) * 2 * perc))%res)
    (seq 0 nr_qubits).

(** One iteration of [for key in counts.keys()]. *)
Definition expectation_step (counts : Counts) (shots : Z) (nr_qubits : nat)
    (expects : list R) (key : string) : result (list R) :=
  (n <-? dict_getitem counts key ;
   perc <-? truediv n shots ;
   check <-? check_of key perc nr_qubits ;
   Ok (np_add expects check))%res.

Fixpoint expectation_loop (counts : Counts) (shots : Z) (nr_qubits : nat)
    (ks : list string) (expects : list R) : result (list R) :=
  match ks with
  | [] => Ok expects
  | key :: ks' =>
      (expects' <-? expectation_step counts shots nr_qubits expects key ;
       expectation_loop counts shots nr_qubits ks' expects')%res
  end.

Definition N_qubit_expectation_Z (counts : Counts) (shots : Z)
    (nr_qubits : nat) : result (list R) :=
  expectation_loop counts shots nr_qubits (keys counts) (np_zeros nr_qubits).

(** ** [N_qubit_expectation_Z] in binary64 arithmetic *)

(** The same function with the arithmetic NumPy and Python perform on
    doubles: [counts[key]/shots] is the correctly rounded quotient,
    [(float(key[i])-1/2)*2*perc] and [expects += check] round after each
    operation. *)










(** ** The circuit object *)

(** A gate parameter is the symbolic [Parameter('Theta')] or a number. *)
Inductive ParamValue : Type :=
| Symbolic (name : string)
| Number (x : R).

Record Instruction : Type := mkInstruction {
  name : string;
  params : list ParamValue          (* the attribute [_params] *)
}.

(** An entry of [circuit.data]: the instruction, its qubits, its bits. *)
Definition CircuitInstruction : Type := (Instruction * list nat * list nat)%type.

Definition QuantumCircuit : Type := list CircuitInstruction.

Record QiskitCircuit : Type := mkQiskitCircuit {
  theta : ParamValue;
  shots : Z;
  circuit : QuantumCircuit
}.

Definition create_circuit (theta : ParamValue) : QuantumCircuit :=
  [ (mkInstruction "h" [], [0%nat], []);
    (mkInstruction "barrier" [], [0%nat], []);
    (mkInstruction "ry" [theta], [0%nat], []);
    (mkInstruction "barrier" [], [0%nat], []);
    (mkInstruction "measure" [], [0%nat], [0%nat]) ].

(** [QiskitCircuit.__init__] *)
Definition QiskitCircuit_init (shots : Z) : QiskitCircuit :=
  let theta := Symbolic "Theta" in
  mkQiskitCircuit theta shots (create_circuit theta).

(** [circuit.data[pos][0]._params = ps] *)
Definition set_params (data : QuantumCircuit) (pos : nat)
    (ps : list ParamValue) : result QuantumCircuit :=
  (entry <-? getitem data pos ;
   let '(g, qargs, cargs) := entry in
   Ok (setitem data pos (mkInstruction (name g) ps, qargs, cargs)))%res.

(** [QiskitCircuit.bind]: the unpacking raises unless exactly one number
    is given, before anything is assigned. *)
Definition bind (parameters : list R) (self : QiskitCircuit)
  : QiskitCircuit * result unit :=
  match to_numbers parameters with
  | [x] =>
      let self1 := mkQiskitCircuit (Number x) (shots self) (circuit self) in
      match set_params (circuit self1) 2 (map Number (to_numbers parameters)) with
      | Ok data => (mkQiskitCircuit (theta self1) (shots self1) data, Ok tt)
      | Raise e => (self1, Raise e)
      end
  | l => (self, Raise (InvalidParameterCount (List.length l)))
  end.

(** A job given to the simulator: the circuit as it is bound at that
    moment, and the shot count. *)
Record Job : Type := mkJob {
  job_circuit : QuantumCircuit;
  job_shots : Z
}.

(** The angles a job's circuit is executed at: the parameters of the gate
    at position 2. *)
Definition job_angles (j : Job) : list ParamValue :=
  match nth_error (job_circuit j) 2 with
  | Some (g, _, _) => params g
  | None => []
  end.

Section Bridge.

(** The simulator: the counts of the [n]-th job, for its circuit and shot
    count.  Two jobs on one circuit may give different counts. *)
Variable backend : nat -> QuantumCircuit -> Z -> Counts.

(** [QiskitCircuit.run] *)
Definition run (i : list R) (self : QiskitCircuit) (jobs : list Job)
  : QiskitCircuit * list Job * result (list R) :=
  match bind i self with
  | (self', Raise e) => (self', jobs, Raise e)
  | (self', Ok _) =>
      let counts := backend (List.length jobs) (circuit self') (shots self') in
      (self', jobs ++ [mkJob (circuit self') (shots self')],
       N_qubit_expectation_Z counts (shots self') 1)
  end.

(** ** Tensors and the autograd context *)

(** A two-dimensional tensor, as its rows.  The input of the layer has
    shape (batch, parameters), its output shape (1, 1). *)
Definition Tensor : Type := list (list R).

(** The world the two passes run in.  Tensors are objects: a reference
    is a position in [heap], which holds the tensor's present content.
    [QiskitCirc] and [saved_tensors] are the attributes of [ctx];
    [saved_tensors] holds references, as [save_for_backward] stores the
    tensors it is given, not copies. *)
Record World : Type := mkWorld {
  heap : list Tensor;
  QiskitCirc : option QiskitCircuit;
  saved_tensors : list nat;
  jobs : list Job
}.

Definition M (A : Type) : Type := World -> World * result A.

Definition ret {A : Type} (a : A) : M A := fun w => (w, Ok a).

Definition mbind {A B : Type} (m : M A) (f : A -> M B) : M B :=
  fun w =>
    match m w with
    | (w', Ok a) => f a w'
    | (w', Raise e) => (w', Raise e)
    end.

Definition lift {A : Type} (r : result A) : M A := fun w => (w, r).

Notation "x <- m ;; k" := (mbind m (fun x => k))
  (at level 61, m at next level, right associativity).
Notation "m ;; k" := (mbind m (fun _ => k))
  (at level 61, right associativity).

(** [torch.tensor(t)]: a new tensor object *)
Definition torch_tensor (t : Tensor) : M nat :=
  fun w =>
    (mkWorld (heap w ++ [t]) (QiskitCirc w) (saved_tensors w) (jobs w),
     Ok (List.length (heap w))).

(** Reading the content of a tensor object.  A reference to no object
    cannot be written in Python; here it raises. *)
Definition deref (l : nat) : M Tensor :=
  fun w =>
    match nth_error (heap w) l with
    | Some t => (w, Ok t)
    | None => (w, Raise ReferenceError)
    end.

(** A write to the storage of a tensor object by whoever holds a reference
    to it, as through [t.data] or a NumPy view of [t]; autograd does not
    track such writes. *)
Definition tensor_write (l : nat) (t : Tensor) (w : World) : World :=
  mkWorld (setitem (heap w) l t) (QiskitCirc w) (saved_tensors w) (jobs w).

(** [if not hasattr(ctx, 'QiskitCirc'): ctx.QiskitCirc = QiskitCircuit(shots=100)] *)
Definition ensure_QiskitCirc : M unit :=
  fun w =>
    match QiskitCirc w with
    | Some _ => (w, Ok tt)
    | None =>
        (mkWorld (heap w) (Some (QiskitCircuit_init 100))
                 (saved_tensors w) (jobs w), Ok tt)
    end.

(** [ctx.QiskitCirc.run(i)] *)
Definition QiskitCirc_run (i : list R) : M (list R) :=
  fun w =>
    match QiskitCirc w with
    | None => (w, Raise AttributeError)
    | Some self =>
        let '(self', jobs', r) := run i self (jobs w) in
        (mkWorld (heap w) (Some self') (saved_tensors w) jobs', r)
    end.

(** [ctx.save_for_backward(a, b)] *)
Definition save_for_backward (a b : nat) : M unit :=
  fun w => (mkWorld (heap w) (QiskitCirc w) [a; b] (jobs w), Ok tt).

(** [forward_tensor, i = ctx.saved_tensors] *)
Definition unpack_saved_tensors : M (nat * nat) :=
  fun w =>
    match saved_tensors w with
    | [forward_tensor; i] => (w, Ok (forward_tensor, i))
    | _ => (w, Raise StaleStateError)
    end.

(** ** [TorchCircuit.forward] *)

Definition forward (i : nat) : M nat :=
  ensure_QiskitCirc ;;
  t <- deref i ;;
  row <- lift (getitem t 0) ;;
  exp_value <- QiskitCirc_run row ;;
  result <- torch_tensor [exp_value] ;;
  save_for_backward result i ;;
  ret result.

(** ** [TorchCircuit.backward] *)

Definition s : R := PI / 2.

(** The body of [for k in range(len(input_numbers))].  [input_plus_s] and
    [input_minus_s] are other names of the list [input_numbers]: the two
    item assignments update that one list, which is carried to the next
    iteration together with [gradient]. *)
Definition backward_body (k : nat) (st : list R * list R)
  : M (list R * list R) :=
  let '(input_numbers, gradient) := st in
  x <- lift (getitem input_numbers k) ;;
  let input_numbers := setitem input_numbers k (x + s) in
  exp_plus <- QiskitCirc_run input_numbers ;;
  exp_value_plus <- lift (getitem exp_plus 0) ;;
  x <- lift (getitem input_numbers k) ;;
  let input_numbers := setitem input_numbers k (x - s) in
  exp_minus <- QiskitCirc_run input_numbers ;;
  exp_value_minus <- lift (getitem exp_minus 0) ;;
  let gradient_result := exp_value_plus - exp_value_minus in
  ret (input_numbers, gradient ++ [gradient_result]).

Fixpoint for_range {S : Type} (ks : list nat) (body : nat -> S -> M S)
    (st : S) : M S :=
  match ks with
  | [] => ret st
  | k :: ks' => st' <- body k st ;; for_range ks' body st'
  end.

(** Broadcasting along one dimension: sizes agree, or one of them is 1. *)
Definition broadcast {A B C : Type} (f : A -> B -> result C)
    (xs : list A) (ys : list B) : result (list C) :=
  match xs, ys with
  | [x], _ => comprehension (fun y => f x y) ys
  | _, [y] => comprehension (fun x => f x y) xs
  | _, _ =>
      if Nat.eqb (List.length xs) (List.length ys)
      then comprehension (fun xy => f (fst xy) (snd xy)) (combine xs ys)
      else Raise ShapeError
  end.

(** [a * b] on two-dimensional tensors *)
Definition tensor_mul (a b : Tensor) : result Tensor :=
  broadcast (broadcast (fun x y => Ok (x * y))) a b.

Definition backward (grad_output : Tensor) : M Tensor :=
  saved <- unpack_saved_tensors ;;
  let '(forward_tensor, i) := saved in
  t <- deref i ;;
  row <- lift (getitem t 0) ;;
  let input_numbers := to_numbers row in
  let gradient := [] in
  st <- for_range (seq 0 (List.length input_numbers)) backward_body
          (input_numbers, gradient) ;;
  let result := [snd st] in
  lift (tensor_mul result grad_output).

(** The visit of the layer's node by the autograd engine in the training
    loop's [loss.backward()]: the engine calls [TorchCircuit.backward] with
    the upstream gradient and, [retain_graph] not being set, releases the
    tensors saved for the node once the call has returned. *)
Definition release_saved_tensors : M unit :=
  fun w => (mkWorld (heap w) (QiskitCirc w) [] (jobs w), Ok tt).

Definition loss_backward (grad_output : Tensor) : M Tensor :=
  grad_input <- backward grad_output ;;
  release_saved_tensors ;;
  ret grad_input.

(** ** The end of [Net.forward] *)

(** [torch.cat((a, b), -1)] for two tensors of one shape *)
Fixpoint cat_last (a b : Tensor) : Tensor :=
  match a, b with
  | ra :: a', rb :: b' => (ra ++ rb) :: cat_last a' b'
  | _, _ => []
  end.

(** [x = (x+1)/2; x = torch.cat((x, 1-x), -1); return x] *)
Definition Net_forward_tail (x : Tensor) : Tensor :=
  let x := map (map (fun e => (e + 1) / 2)) x in
  cat_last x (map (map (fun e => 1 - e)) x).

End Bridge.

(** ** Predicates and closed forms used by the statements *)

(** [key] has a bit, "0" or "1", at each of the positions below [n]. *)
Definition bit_at (key : string) (q : nat) : bool :=
  match String.get q key with
  | Some c => Ascii.eqb c "0" || Ascii.eqb c "1"
  | None => false
  end.

Definition bitstringb (n : nat) (key : string) : bool :=
  forallb (bit_at key) (seq 0 n).

Fixpoint nodupb (ks : list string) : bool :=
  match ks with
  | [] => true
  | k :: ks' => negb (existsb (String.eqb k) ks') && nodupb ks'
  end.

(** A dictionary of measurement outcomes on [n] qubits: distinct keys, each
    a bit string. *)
Definition outcomes_ok (n : nat) (counts : Counts) : bool :=
  nodupb (keys counts) && forallb (bitstringb n) (keys counts).

Definition total (counts : Counts) : Z :=
  fold_right Z.add 0%Z (map snd counts).

(** Counts that are non-negative and sum to the shot count. *)
Definition normalizedb (counts : Counts) (shots : Z) : bool :=
  forallb (fun kv => (0 <=? snd kv)%Z) counts && (total counts =? shots)%Z.

(** What [(float(key[q])-1/2)*2] evaluates to on a bit: -1 on "0" and +1
    on "1". *)
Definition outcome_sign (key : string) (q : nat) : R :=
  match String.get q key with
  | Some c =>
      if Ascii.eqb c "0" then -1 else if Ascii.eqb c "1" then 1 else 0
  | None => 0
  end.

(** The frequency-weighted sum of the signs at position [q]. *)
Definition weighted_sum (sign : string -> nat -> R) (counts : Counts)
    (shots : Z) (q : nat) : R :=
  fold_right
    (fun kv acc => sign (fst kv) q * (IZR (snd kv) / IZR shots) + acc)
    0 counts.

(** The simulator returns dictionaries of one-qubit outcomes. *)
Definition backend_ok (backend : nat -> QuantumCircuit -> Z -> Counts) : Prop :=
  forall n c sh, outcomes_ok 1 (backend n c sh) = true.

(** The evaluator of a context, if it has one, was built by
    [QiskitCircuit_init] with a shot count that is not zero and has been
    used through [bind] only. *)
Definition evaluator_ok (w : World) : Prop :=
  match QiskitCirc w with
  | None => True
  | Some self => shots self <> 0%Z /\ exists p, circuit self = create_circuit p
  end.

(** The expectation vector the [n]-th job [j] evaluates to. *)
Definition job_expectation (backend : nat -> QuantumCircuit -> Z -> Counts)
    (n : nat) (j : Job) : result (list R) :=
  N_qubit_expectation_Z (backend n (job_circuit j) (job_shots j)) (job_shots j) 1.

(** A simulator that splits the shots evenly, and a world holding one
    input tensor [[v]] and a fresh context, for the examples. *)
Definition even_backend (n : nat) (c : QuantumCircuit) (sh : Z) : Counts :=
  [("0"%string, (sh / 2)%Z); ("1"%string, (sh - sh / 2)%Z)].

Definition fresh_world (v : R) : World := mkWorld [[[v]]] None [] [].

(** The names, qubits and bits of a circuit, without the parameters. *)
Definition structure (data : QuantumCircuit) : list (string * list nat * list nat) :=
  map (fun e => (name (fst (fst e)), snd (fst e), snd e)) data.

(** [evaluations backend inputs self jobs]: the circuit object and job log
    after calling [run] on each of [inputs] in turn, whether or not a call
    raises. *)
Fixpoint evaluations (backend : nat -> QuantumCircuit -> Z -> Counts)
    (inputs : list (list R)) (self : QiskitCircuit) (jobs : list Job)
  : QiskitCircuit * list Job :=
  match inputs with
  | [] => (self, jobs)
  | i :: inputs' =>
      let '(self', jobs', _) := run backend i self jobs in
      evaluations backend inputs' self' jobs'
  end.








(** The sign as the specification words it: +1 on "0" and -1 on "1". *)
Definition spec_outcome_sign (key : string) (q : nat) : R :=
  match String.get q key with
  | Some c =>
      if Ascii.eqb c "0" then 1 else if Ascii.eqb c "1" then -1 else 0
  | None => 0
  end.

(** The evaluator [forward] runs: the one of the context, or the one it
    constructs when the context has none. *)
Definition evaluator (w : World) : QiskitCircuit :=
  match QiskitCirc w with
  | Some self => self
  | None => QiskitCircuit_init 100
  end.

(** No forward state saved: the state the specification calls Idle. *)
Definition Idle (w : World) : Prop := saved_tensors w = [].

(** ** The data set and the training loop *)

(** [np.where(labels == v)[0]]: the positions of [v], in increasing order. *)
Fixpoint where_eq_from (k : nat) (labels : list Z) (v : Z) : list nat :=
  match labels with
  | [] => []
  | l :: labels' =>
      if Z.eqb l v then k :: where_eq_from (S k) labels' v
      else where_eq_from (S k) labels' v
  end.

Definition np_where_eq (labels : list Z) (v : Z) : list nat :=
  where_eq_from 0 labels v.

(** [idx = np.concatenate((idx1[0][0:n], idx2[0][0:n]))] *)
Definition filter_idx (labels : list Z) (n : nat) : list nat :=
  firstn n (np_where_eq labels 0) ++ firstn n (np_where_eq labels 1).

(** [a[idx]] for an array of positions [idx] *)
Definition fancy_index {A : Type} (a : list A) (idx : list nat)
  : result (list A) :=
  comprehension (getitem a) idx.

(** [mnist_trainset.targets = labels[idx]] and
    [mnist_trainset.data = mnist_trainset.data[idx]] *)
Definition filtered_targets (labels : list Z) (n : nat) : result (list Z) :=
  fancy_index labels (filter_idx labels n).

Definition filtered_data {A : Type} (data : list A) (labels : list Z)
    (n : nat) : result (list A) :=
  fancy_index data (filter_idx labels n).

(** [sum(total_loss)/len(total_loss)] *)
Definition epoch_mean (total_loss : list R) : result R :=
  if Nat.eqb (List.length total_loss) 0 then Raise ZeroDivisionError
  else Ok (fold_left Rplus total_loss 0 / INR (List.length total_loss)).

(** [for i in range(len(loss_list)): loss_list[i] += 1] *)
Fixpoint normalise_from (ks : list nat) (loss_list : list R)
  : result (list R) :=
  match ks with
  | [] => Ok loss_list
  | i :: ks' =>
      (x <-? getitem loss_list i ;
       normalise_from ks' (setitem loss_list i (x + 1)))%res
  end.

Definition normalise_losses (loss_list : list R) : result (list R) :=
  normalise_from (seq 0 (List.length loss_list)) loss_list.

(** The loss curve of the training cell, from the per-example losses of
    each epoch: the epoch means, then the shift by one. *)
Definition loss_curve (epochs : list (list R)) : result (list R) :=
  (loss_list <-? comprehension epoch_mean epochs ;
   normalise_losses loss_list)%res.

(** ** Further predicates *)

(** The counts of the outcomes with a "1" at position [q]. *)
Definition ones_at (counts : Counts) (q : nat) : Z :=
  fold_right
    (fun kv acc =>
       match String.get q (fst kv) with
       | Some c => if Ascii.eqb c "1" then (snd kv + acc)%Z else acc
       | None => acc
       end)
    0%Z counts.


(** A computation keeps a relation between the world it starts in and the
    world it ends in, whether it returns or raises. *)
Definition keeps (Rel : World -> World -> Prop) {A : Type} (m : M A) : Prop :=
  forall w, Rel w (fst (m w)).

(** The tensors and the saved references are the same. *)
Definition same_tensors (w w' : World) : Prop :=
  heap w' = heap w /\ saved_tensors w' = saved_tensors w.

(** An evaluator in order stays in order. *)
Definition stays_ok (w w' : World) : Prop :=
  evaluator_ok w -> evaluator_ok w'.

(** The jobs a computation has added to the log of [w]. *)
Definition new_jobs (w w' : World) : list Job :=
  skipn (List.length (jobs w)) (jobs w').

(** ** The expectation computation *)

Lemma to_numbers_app (l acc : list R) :
  fold_left (fun num_list tensor => num_list ++ [tensor]) l acc = acc ++ l.
Proof.
  revert acc. induction l as [|x l IH]; intros acc; simpl.
  - now rewrite app_nil_r.
  - rewrite IH, <- app_assoc. reflexivity.
Qed.

Lemma to_numbers_id (l : list R) : to_numbers l = l.
Proof. unfold to_numbers. now rewrite to_numbers_app. Qed.

Lemma bit_at_sign (key : string) (q : nat) (perc : R) :
  bit_at key q = true ->
  (c <-? str_getitem key q ; b <-? float_of_char c ;
   Ok ((b - 1 / 2) * 2 * perc))%res
  = Ok (outcome_sign key q * perc).
Proof.
  unfold bit_at, str_getitem, outcome_sign.
  destruct (String.get q key) as [c|]; [|discriminate].
  destruct (Ascii.eqb c "0") eqn:E0.
  - apply Ascii.eqb_eq in E0. subst c. intros _. simpl.
    unfold float_of_char. simpl. f_equal. lra.
  - destruct (Ascii.eqb c "1") eqn:E1; [|discriminate].
    apply Ascii.eqb_eq in E1. subst c. intros _. simpl.
    unfold float_of_char. simpl. f_equal. lra.
Qed.

Lemma check_of_bits (key : string) (perc : R) (n : nat) :
  bitstringb n key = true ->
  check_of key perc n = Ok (map (fun q => outcome_sign key q * perc) (seq 0 n)).
Proof.
  unfold bitstringb, check_of. generalize (seq 0 n) as qs.
  induction qs as [|q qs IH]; simpl; intros H; [reflexivity|].
  apply andb_prop in H. destruct H as [Hq Hqs].
  rewrite (bit_at_sign key q perc Hq). simpl.
  rewrite (IH Hqs). reflexivity.
Qed.

Lemma np_add_map (f g : nat -> R) (qs : list nat) :
  np_add (map f qs) (map g qs) = map (fun q => f q + g q) qs.
Proof. induction qs as [|q qs IH]; simpl; [reflexivity | now rewrite IH]. Qed.

Lemma np_zeros_map (n k : nat) : np_zeros n = map (fun _ => 0) (seq k n).
Proof.
  unfold np_zeros. revert k.
  induction n as [|n IH]; intros k; simpl; [reflexivity | now rewrite <- IH].
Qed.

Lemma truediv_nonzero (a b : Z) :
  b <> 0%Z -> truediv a b = Ok (IZR a / IZR b).
Proof.
  intros Hb. unfold truediv.
  destruct (Z.eqb_spec b 0) as [E|_]; [contradiction | reflexivity].
Qed.

Lemma existsb_eqb_in (k : string) (ks : list string) :
  In k ks -> existsb (String.eqb k) ks = true.
Proof.
  intros H. apply existsb_exists. exists k. split; [assumption|].
  apply String.eqb_refl.
Qed.

Lemma dict_getitem_entry (counts : Counts) (k : string) (v : Z) :
  nodupb (keys counts) = true -> In (k, v) counts ->
  dict_getitem counts k = Ok v.
Proof.
  induction counts as [|[k0 v0] counts IH]; simpl; intros Hnd Hin; [contradiction|].
  apply andb_prop in Hnd. destruct Hnd as [Hfresh Hnd].
  destruct Hin as [E|Hin].
  - inversion E; subst. now rewrite String.eqb_refl.
  - destruct (String.eqb_spec k0 k) as [->|_].
    + rewrite (existsb_eqb_in k (keys counts)) in Hfresh; [discriminate|].
      change k with (fst (k, v)). apply in_map. assumption.
    + now apply IH.
Qed.

(** The loop over a list of entries [es] of [counts], started at an
    accumulator [a]: it adds to [a] the weighted sum over [es]. *)
Lemma expectation_loop_closed (counts : Counts) (shots : Z) (n : nat) :
  shots <> 0%Z ->
  forall (es : Counts) (a : nat -> R),
    (forall kv, In kv es ->
       dict_getitem counts (fst kv) = Ok (snd kv)
       /\ bitstringb n (fst kv) = true) ->
    expectation_loop counts shots n (keys es) (map a (seq 0 n))
    = Ok (map (fun q => a q + weighted_sum outcome_sign es shots q) (seq 0 n)).
Proof.
  intros Hsh. induction es as [|[k v] es IH]; intros a Hes; simpl.
  - f_equal. apply map_ext. intros q. lra.
  - destruct (Hes (k, v) (or_introl eq_refl)) as [Hget Hbits]. simpl in Hget, Hbits.
    unfold expectation_step. rewrite Hget. simpl.
    rewrite (truediv_nonzero v shots Hsh). simpl.
    rewrite (check_of_bits k _ n Hbits). simpl.
    rewrite np_add_map.
    rewrite (IH (fun q => a q + outcome_sign k q * (IZR v / IZR shots))).
    + f_equal. apply map_ext. intros q. lra.
    + intros kv Hin. apply Hes. now right.
Qed.

Lemma outcomes_ok_entries (n : nat) (counts : Counts) :
  outcomes_ok n counts = true ->
  forall kv, In kv counts ->
    dict_getitem counts (fst kv) = Ok (snd kv) /\ bitstringb n (fst kv) = true.
Proof.
  unfold outcomes_ok. intros H [k v] Hin.
  apply andb_prop in H. destruct H as [Hnd Hbits]. simpl. split.
  - now apply dict_getitem_entry.
  - rewrite forallb_forall in Hbits. apply Hbits.
    change k with (fst (k, v)). now apply in_map.
Qed.

Lemma N_qubit_expectation_Z_closed (counts : Counts) (shots : Z) (n : nat) :
  shots <> 0%Z -> outcomes_ok n counts = true ->
  N_qubit_expectation_Z counts shots n
  = Ok (map (weighted_sum outcome_sign counts shots) (seq 0 n)).
Proof.
  intros Hsh Hok. unfold N_qubit_expectation_Z.
  rewrite (np_zeros_map n 0).
  rewrite (expectation_loop_closed counts shots n Hsh counts (fun _ => 0)
             (outcomes_ok_entries n counts Hok)).
  f_equal. apply map_ext. intros q. lra.
Qed.


(** C2, as stated, fails: on a run in which every shot measured "0" the
    code returns -1, where the sentence (a "0" bit contributes +1) gives +1. *)
Lemma expectation_sign_counterexample :
  N_qubit_expectation_Z [("0"%string, 100%Z)] 100 1 = Ok [-1]
  /\ map (weighted_sum spec_outcome_sign [("0"%string, 100%Z)] 100) (seq 0 1) = [1]
  /\ N_qubit_expectation_Z [("0"%string, 100%Z)] 100 1
     <> Ok (map (weighted_sum spec_outcome_sign [("0"%string, 100%Z)] 100) (seq 0 1)).
Proof.
  assert (Hcode : N_qubit_expectation_Z [("0"%string, 100%Z)] 100 1 = Ok [-1]).
  { rewrite N_qubit_expectation_Z_closed; [|discriminate|reflexivity].
    simpl. unfold weighted_sum, outcome_sign. simpl. f_equal. f_equal. lra. }
  assert (Hspec : map (weighted_sum spec_outcome_sign [("0"%string, 100%Z)] 100)
                    (seq 0 1) = [1]).
  { simpl. unfold weighted_sum, spec_outcome_sign. simpl. f_equal. lra. }
  split; [exact Hcode|]. split; [exact Hspec|].
  rewrite Hcode, Hspec. intros E. inversion E. lra.
Qed.

(** C2, amended: for a dictionary of outcomes on [n] qubits and a shot
    count that is not zero, [N_qubit_expectation_Z] returns, for each qubit
    position, the sum over the observed outcomes of the sign of the bit at
    that position times the outcome's frequency count/shots, where a "0"
    bit has sign -1 and a "1" bit has sign +1. *)
Theorem expectation_weighted_signs (counts : Counts) (shots : Z) (n : nat) :
  shots <> 0%Z -> outcomes_ok n counts = true ->
  N_qubit_expectation_Z counts shots n
  = Ok (map (weighted_sum outcome_sign counts shots) (seq 0 n))
  /\ (forall key q, String.get q key = Some "0"%char -> outcome_sign key q = -1)
  /\ (forall key q, String.get q key = Some "1"%char -> outcome_sign key q = 1).
Proof.
  intros Hsh Hok. split; [now apply N_qubit_expectation_Z_closed|].
  split; intros key q E; unfold outcome_sign; rewrite E; reflexivity.
Qed.

Lemma expectation_weighted_signs_witness :
  N_qubit_expectation_Z [("0"%string, 30%Z); ("1"%string, 70%Z)] 100 1
  = Ok (map (weighted_sum outcome_sign
               [("0"%string, 30%Z); ("1"%string, 70%Z)] 100) (seq 0 1))
  /\ (forall key q, String.get q key = Some "0"%char -> outcome_sign key q = -1)
  /\ (forall key q, String.get q key = Some "1"%char -> outcome_sign key q = 1).
Proof.
  apply (expectation_weighted_signs
           [("0"%string, 30%Z); ("1"%string, 70%Z)] 100 1).
  - discriminate.
  - reflexivity.
Defined.












(** ** Rebinding the circuit *)

Lemma setitem_length {A : Type} (l : list A) (k : nat) (v : A) :
  List.length (setitem l k v) = List.length l.
Proof.
  revert k. induction l as [|a l IH]; intros [|k]; simpl; auto.
Qed.

Lemma setitem_firstn {A : Type} (l : list A) (k : nat) (v : A) :
  firstn k (setitem l k v) = firstn k l.
Proof.
  revert k. induction l as [|a l IH]; intros [|k]; simpl; auto.
  now rewrite IH.
Qed.

Lemma setitem_skipn {A : Type} (l : list A) (k : nat) (v : A) :
  skipn (S k) (setitem l k v) = skipn (S k) l.
Proof.
  revert k. induction l as [|a l IH]; intros [|k]; auto.
  change (skipn (S k) (setitem l k v) = skipn (S k) l). apply IH.
Qed.

Lemma structure_setitem (data : QuantumCircuit) (pos : nat)
    (g : Instruction) (qargs cargs : list nat) (ps : list ParamValue) :
  nth_error data pos = Some (g, qargs, cargs) ->
  structure (setitem data pos (mkInstruction (name g) ps, qargs, cargs))
  = structure data.
Proof.
  unfold structure. revert pos.
  induction data as [|e data IH]; intros [|pos]; simpl; intros H;
    try discriminate.
  - inversion H; subst e. reflexivity.
  - now rewrite IH.
Qed.

(** [set_params] keeps every entry but the one at [pos], and there it keeps
    the gate's name, qubits and bits. *)
Lemma set_params_frame (data data' : QuantumCircuit) (pos : nat)
    (ps : list ParamValue) :
  set_params data pos ps = Ok data' ->
  structure data' = structure data
  /\ firstn pos data' = firstn pos data
  /\ skipn (S pos) data' = skipn (S pos) data.
Proof.
  unfold set_params, getitem.
  destruct (nth_error data pos) as [[[g qargs] cargs]|] eqn:E; simpl;
    [|discriminate].
  intros H. inversion H; subst data'. split; [|split].
  - now apply structure_setitem.
  - apply setitem_firstn.
  - apply setitem_skipn.
Qed.

Lemma bind_frame (parameters : list R) (self : QiskitCircuit) :
  structure (circuit (fst (bind parameters self))) = structure (circuit self)
  /\ firstn 2 (circuit (fst (bind parameters self))) = firstn 2 (circuit self)
  /\ skipn 3 (circuit (fst (bind parameters self))) = skipn 3 (circuit self)
  /\ shots (fst (bind parameters self)) = shots self.
Proof.
  unfold bind. destruct (to_numbers parameters) as [|x [|y l]]; simpl; auto.
  destruct (set_params (circuit self) 2 [Number x]) as [data|e] eqn:E; simpl; auto.
  destruct (set_params_frame _ _ _ _ E) as [H1 [H2 H3]]. auto.
Qed.

Lemma run_circuit (backend : nat -> QuantumCircuit -> Z -> Counts)
    (i : list R) (self : QiskitCircuit) (jobs : list Job) :
  fst (fst (run backend i self jobs)) = fst (bind i self).
Proof.
  unfold run. destruct (bind i self) as [self' [u|e]]; reflexivity.
Qed.

Lemma evaluations_structure (backend : nat -> QuantumCircuit -> Z -> Counts)
    (inputs : list (list R)) :
  forall self jobs,
    structure (circuit (fst (evaluations backend inputs self jobs)))
    = structure (circuit self).
Proof.
  induction inputs as [|i inputs IH]; intros self jobs; simpl; [reflexivity|].
  pose proof (run_circuit backend i self jobs) as Hc.
  destruct (run backend i self jobs) as [[self' jobs'] r]. simpl in Hc.
  rewrite IH, Hc. apply bind_frame.
Qed.

(** C10: a call of [run] keeps the names, qubits and bits of all gates and
    keeps the entries before and after position 2 as they are, so that only
    the parameters of the gate at position 2 can change; hence after any
    number of calls on a newly constructed evaluator the gate sequence is
    still Hadamard, barrier, RY, barrier, measurement. *)
Theorem run_preserves_gate_structure
    (backend : nat -> QuantumCircuit -> Z -> Counts) :
  (forall i self jobs,
     structure (circuit (fst (fst (run backend i self jobs))))
     = structure (circuit self)
     /\ firstn 2 (circuit (fst (fst (run backend i self jobs))))
        = firstn 2 (circuit self)
     /\ skipn 3 (circuit (fst (fst (run backend i self jobs))))
        = skipn 3 (circuit self))
  /\ (forall inputs sh,
        structure (circuit (fst (evaluations backend inputs
                                   (QiskitCircuit_init sh) [])))
        = [("h"%string, [0%nat], []); ("barrier"%string, [0%nat], []);
           ("ry"%string, [0%nat], []); ("barrier"%string, [0%nat], []);
           ("measure"%string, [0%nat], [0%nat])]).
Proof.
  split.
  - intros i self jobs. rewrite run_circuit.
    destruct (bind_frame i self) as [H1 [H2 [H3 _]]]. auto.
  - intros inputs sh. rewrite evaluations_structure. reflexivity.
Qed.

(** A call with one angle on a circuit built by [create_circuit] binds the
    angle, logs the job and returns the expectation of the job's counts. *)
Lemma run_one (backend : nat -> QuantumCircuit -> Z -> Counts)
    (x : R) (self : QiskitCircuit) (jobs : list Job) (p : ParamValue) :
  circuit self = create_circuit p ->
  run backend [x] self jobs
  = (mkQiskitCircuit (Number x) (shots self) (create_circuit (Number x)),
     jobs ++ [mkJob (create_circuit (Number x)) (shots self)],
     N_qubit_expectation_Z
       (backend (List.length jobs) (create_circuit (Number x)) (shots self))
       (shots self) 1).
Proof.
  intros Hc. unfold run, bind. rewrite to_numbers_id, Hc. reflexivity.
Qed.

Lemma run_wrong_length (backend : nat -> QuantumCircuit -> Z -> Counts)
    (i : list R) (self : QiskitCircuit) (jobs : list Job) :
  List.length i <> 1%nat ->
  run backend i self jobs
  = (self, jobs, Raise (InvalidParameterCount (List.length i))).
Proof.
  intros Hlen. unfold run, bind. rewrite to_numbers_id.
  destruct i as [|x [|y i]]; simpl in *; try reflexivity. contradiction.
Qed.

(** C5: [run] on an angle vector whose length is not 1 raises
    InvalidParameterCount, leaving the evaluator and the job log as they
    were; in particular on every vector of length 2. *)
Theorem run_invalid_parameter_count
    (backend : nat -> QuantumCircuit -> Z -> Counts)
    (i : list R) (self : QiskitCircuit) (jobs : list Job) :
  List.length i <> 1%nat ->
  run backend i self jobs
  = (self, jobs, Raise (InvalidParameterCount (List.length i)))
  /\ (forall a b,
        run backend [a; b] self jobs
        = (self, jobs, Raise (InvalidParameterCount 2))).
Proof.
  intros Hlen. split.
  - now apply run_wrong_length.
  - intros a b. apply (run_wrong_length backend [a; b]). simpl. lia.
Qed.

Lemma run_invalid_parameter_count_witness :
  run even_backend [0; PI] (QiskitCircuit_init 100) []
  = (QiskitCircuit_init 100, [], Raise (InvalidParameterCount 2))
  /\ (forall a b,
        run even_backend [a; b] (QiskitCircuit_init 100) []
        = (QiskitCircuit_init 100, [], Raise (InvalidParameterCount 2))).
Proof.
  apply (run_invalid_parameter_count even_backend [0; PI]
           (QiskitCircuit_init 100) []).
  simpl. lia.
Defined.

(** ** The forward pass *)

Lemma ensure_QiskitCirc_spec (w : World) :
  ensure_QiskitCirc w
  = (mkWorld (heap w) (Some (evaluator w)) (saved_tensors w) (jobs w), Ok tt).
Proof. destruct w as [h [self|] sv js]; reflexivity. Qed.

(** What a returning [forward] has done. *)
Lemma forward_returns (backend : nat -> QuantumCircuit -> Z -> Counts)
    (i out : nat) (w0 w1 : World) :
  forward backend i w0 = (w1, Ok out) ->
  exists row rest exp_value self',
    nth_error (heap w0) i = Some (row :: rest)
    /\ run backend row (evaluator w0) (jobs w0) = (self', jobs w1, Ok exp_value)
    /\ out = List.length (heap w0)
    /\ w1 = mkWorld (heap w0 ++ [[exp_value]]) (Some self') [out; i] (jobs w1).
Proof.
  unfold forward, mbind. rewrite ensure_QiskitCirc_spec.
  unfold deref, lift, QiskitCirc_run, torch_tensor, save_for_backward, ret.
  cbn [heap QiskitCirc saved_tensors jobs].
  destruct (nth_error (heap w0) i) as [[|row rest]|]; cbn [getitem nth_error];
    try discriminate.
  cbn [heap QiskitCirc saved_tensors jobs].
  destruct (run backend row (evaluator w0) (jobs w0))
    as [[self' jobs'] [exp_value|e]] eqn:Hrun;
    cbn [heap QiskitCirc saved_tensors jobs]; try discriminate.
  intros H. inversion H; subst. cbn [jobs].
  exists row, rest, exp_value, self'. auto.
Qed.

Lemma evaluator_ok_evaluator (w : World) :
  evaluator_ok w ->
  shots (evaluator w) <> 0%Z /\ exists p, circuit (evaluator w) = create_circuit p.
Proof.
  unfold evaluator_ok, evaluator. destruct (QiskitCirc w) as [self|]; [trivial|].
  intros _. split; [discriminate|]. now exists (Symbolic "Theta").
Qed.

(** A returning [forward] on a context whose evaluator is in order: the
    input row has one angle [v], the evaluator is bound to [v], one job at
    [v] was logged, and the output object and the input object [i] itself
    are what the context holds. *)
Lemma forward_state (backend : nat -> QuantumCircuit -> Z -> Counts)
    (i out : nat) (w0 w1 : World) :
  evaluator_ok w0 ->
  forward backend i w0 = (w1, Ok out) ->
  exists v rest exp_value sh,
    nth_error (heap w0) i = Some ([v] :: rest)
    /\ sh <> 0%Z
    /\ out = List.length (heap w0)
    /\ w1 = mkWorld (heap w0 ++ [[exp_value]])
              (Some (mkQiskitCircuit (Number v) sh (create_circuit (Number v))))
              [out; i]
              (jobs w0 ++ [mkJob (create_circuit (Number v)) sh]).
Proof.
  intros Hev Hfw.
  destruct (forward_returns backend i out w0 w1 Hfw)
    as [row [rest [exp_value [self' [Hi [Hrun [Hout Hw1]]]]]]].
  destruct (evaluator_ok_evaluator w0 Hev) as [Hsh [p Hp]].
  destruct (Nat.eq_dec (List.length row) 1) as [Hlen|Hlen].
  - destruct row as [|v [|y row]]; try discriminate.
    rewrite (run_one backend v (evaluator w0) (jobs w0) p Hp) in Hrun.
    inversion Hrun as [[Hself Hjobs Hexp]].
    exists v, rest, exp_value, (shots (evaluator w0)).
    rewrite Hw1 at 1. rewrite <- Hjobs, <- Hself. auto.
  - rewrite (run_wrong_length backend row _ _ Hlen) in Hrun. discriminate.
Qed.

(** ** The backward pass *)

Lemma QiskitCirc_run_one (backend : nat -> QuantumCircuit -> Z -> Counts)
    (x : R) (h : list Tensor) (th p : ParamValue) (sh : Z) (sv : list nat)
    (js : list Job) :
  backend_ok backend -> sh <> 0%Z ->
  QiskitCirc_run backend [x]
    (mkWorld h (Some (mkQiskitCircuit th sh (create_circuit p))) sv js)
  = (mkWorld h
       (Some (mkQiskitCircuit (Number x) sh (create_circuit (Number x)))) sv
       (js ++ [mkJob (create_circuit (Number x)) sh]),
     Ok [weighted_sum outcome_sign
           (backend (List.length js) (create_circuit (Number x)) sh) sh 0]).
Proof.
  intros Hb Hsh. unfold QiskitCirc_run. cbn [QiskitCirc jobs heap saved_tensors].
  rewrite (run_one backend x (mkQiskitCircuit th sh (create_circuit p)) js p
             eq_refl).
  cbn [shots].
  rewrite (N_qubit_expectation_Z_closed _ sh 1 Hsh (Hb _ _ _)). reflexivity.
Qed.

(** [backward] on a context that holds a one-angle input [[v]]: two jobs,
    the first at [v + s], the second at [(v + s) - s], and the difference
    of their expectations times the upstream gradient. *)
Lemma backward_one (backend : nat -> QuantumCircuit -> Z -> Counts)
    (grad_output : Tensor) (h : list Tensor) (th p : ParamValue) (sh : Z)
    (r i : nat) (js : list Job) (v : R) (rest : Tensor) :
  backend_ok backend -> sh <> 0%Z ->
  nth_error h i = Some ([v] :: rest) ->
  backward backend grad_output
    (mkWorld h (Some (mkQiskitCircuit th sh (create_circuit p))) [r; i] js)
  = (mkWorld h
       (Some (mkQiskitCircuit (Number (v + s - s)) sh
                (create_circuit (Number (v + s - s)))))
       [r; i]
       (js ++ [mkJob (create_circuit (Number (v + s))) sh;
               mkJob (create_circuit (Number (v + s - s))) sh]),
     tensor_mul
       [[weighted_sum outcome_sign
           (backend (List.length js) (create_circuit (Number (v + s))) sh) sh 0
         - weighted_sum outcome_sign
             (backend (S (List.length js))
                (create_circuit (Number (v + s - s))) sh) sh 0]]
       grad_output).
Proof.
  intros Hb Hsh Hi.
  unfold backward, mbind at 1, unpack_saved_tensors. cbn [saved_tensors].
  unfold mbind at 1, deref. cbn [heap]. rewrite Hi.
  unfold mbind at 1, lift at 1. cbn [getitem nth_error].
  rewrite to_numbers_id. cbn [List.length seq for_range].
  unfold mbind at 1. unfold mbind at 1. unfold backward_body.
  unfold mbind at 1, lift at 1. cbn [getitem nth_error setitem].
  unfold mbind at 1. rewrite (QiskitCirc_run_one backend (v + s) h th p sh _ js Hb Hsh).
  unfold mbind at 1, lift at 1. cbn [getitem nth_error].
  unfold mbind at 1, lift at 1. cbn [getitem nth_error setitem].
  unfold mbind at 1.
  rewrite (QiskitCirc_run_one backend (v + s - s) h _ _ sh _ _ Hb Hsh).
  unfold mbind at 1, lift at 1. cbn [getitem nth_error].
  unfold ret, lift. cbn [snd app].
  rewrite <- app_assoc, length_app. cbn [app List.length].
  replace (List.length js + 1)%nat with (S (List.length js)) by lia.
  reflexivity.
Qed.

(** [forward] on a one-angle input returns: the converse of
    [forward_state]. *)
Lemma forward_one (backend : nat -> QuantumCircuit -> Z -> Counts)
    (i : nat) (w0 : World) (v : R) (rest : Tensor) :
  backend_ok backend -> evaluator_ok w0 ->
  nth_error (heap w0) i = Some ([v] :: rest) ->
  forward backend i w0
  = (mkWorld
       (heap w0
        ++ [[[weighted_sum outcome_sign
                (backend (List.length (jobs w0)) (create_circuit (Number v))
                   (shots (evaluator w0)))
                (shots (evaluator w0)) 0]]])
       (Some (mkQiskitCircuit (Number v) (shots (evaluator w0))
                (create_circuit (Number v))))
       [List.length (heap w0); i]
       (jobs w0 ++ [mkJob (create_circuit (Number v)) (shots (evaluator w0))]),
     Ok (List.length (heap w0))).
Proof.
  intros Hb Hev Hi.
  destruct (evaluator_ok_evaluator w0 Hev) as [Hsh [p Hp]].
  unfold forward, mbind at 1. rewrite ensure_QiskitCirc_spec.
  unfold mbind at 1, deref. cbn [heap]. rewrite Hi.
  unfold mbind at 1, lift. cbn [getitem nth_error].
  unfold mbind at 1.
  destruct (evaluator w0) as [th sh c] eqn:Eev. cbn [shots circuit] in *.
  subst c. rewrite (QiskitCirc_run_one backend v _ th p sh _ _ Hb Hsh).
  reflexivity.
Qed.

Lemma even_backend_ok : backend_ok even_backend.
Proof. intros n c sh. reflexivity. Qed.

Lemma fresh_world_ok (v : R) : evaluator_ok (fresh_world v).
Proof. exact I. Qed.

(** The forward pass of the examples. *)
Lemma forward_fresh_world (v : R) :
  forward even_backend 0 (fresh_world v)
  = (mkWorld
       [[[v]];
        [[weighted_sum outcome_sign
            (even_backend 0 (create_circuit (Number v)) 100) 100 0]]]
       (Some (mkQiskitCircuit (Number v) 100 (create_circuit (Number v))))
       [1%nat; 0%nat]
       [mkJob (create_circuit (Number v)) 100],
     Ok 1%nat).
Proof.
  rewrite (forward_one even_backend 0 (fresh_world v) v []
             even_backend_ok (fresh_world_ok v) eq_refl).
  reflexivity.
Qed.

(** C4: [backward] on a context with no saved forward state raises
    StaleStateError; no gradient is returned, no job is run and the world
    is left as it was. *)
Theorem backward_idle_raises (backend : nat -> QuantumCircuit -> Z -> Counts)
    (grad_output : Tensor) (w : World) :
  Idle w ->
  backward backend grad_output w = (w, Raise StaleStateError).
Proof.
  unfold Idle, backward, mbind, unpack_saved_tensors. intros H.
  rewrite H. reflexivity.
Qed.

Lemma backward_idle_raises_witness :
  backward even_backend [[1]] (fresh_world 0)
  = (fresh_world 0, Raise StaleStateError).
Proof.
  apply (backward_idle_raises even_backend [[1]] (fresh_world 0)).
  reflexivity.
Defined.

(** The engine's visit leaves the context Idle, so that a second
    [backward] for the same [forward] raises. *)
Lemma loss_backward_consumes (backend : nat -> QuantumCircuit -> Z -> Counts)
    (grad_output grad_input : Tensor) (w w' : World) :
  loss_backward backend grad_output w = (w', Ok grad_input) ->
  Idle w'
  /\ backward backend grad_output w' = (w', Raise StaleStateError).
Proof.
  unfold loss_backward, mbind, release_saved_tensors, ret.
  destruct (backward backend grad_output w) as [w1 [t|e]]; [|discriminate].
  intros H. inversion H; subst. split; reflexivity.
Qed.

(** [backward] on a saved input row that does not have exactly one entry:
    no job, the world as it was; the empty gradient on the empty row, an
    exception at the first call of [run] on a longer one. *)
Lemma backward_row_not_one
    (backend : nat -> QuantumCircuit -> Z -> Counts)
    (grad_output : Tensor) (w : World) (r i : nat) (row : list R)
    (rest : Tensor) (self : QiskitCircuit) :
  saved_tensors w = [r; i] ->
  nth_error (heap w) i = Some (row :: rest) ->
  QiskitCirc w = Some self ->
  List.length row <> 1%nat ->
  backward backend grad_output w
  = (w, match row with
        | [] => tensor_mul [[]] grad_output
        | _ => Raise (InvalidParameterCount (List.length row))
        end).
Proof.
  destruct w as [h qc sv js]. cbn [saved_tensors heap QiskitCirc].
  intros -> Hi -> Hlen.
  unfold backward, mbind at 1, unpack_saved_tensors. cbn [saved_tensors].
  unfold mbind at 1, deref. cbn [heap]. rewrite Hi.
  unfold mbind at 1, lift at 1. cbn [getitem nth_error].
  rewrite to_numbers_id.
  destruct row as [|a [|b row]].
  - reflexivity.
  - contradiction.
  - cbn [List.length seq for_range].
    unfold mbind at 1. unfold mbind at 1. unfold backward_body.
    unfold mbind at 1, lift at 1. cbn [getitem nth_error setitem].
    unfold mbind at 1. unfold QiskitCirc_run at 1. cbn [QiskitCirc jobs].
    rewrite run_wrong_length by (simpl; lia). reflexivity.
Qed.

(** [backward] on a saved input row of one entry, for any world whose
    evaluator is in order. *)
Lemma backward_row_one
    (backend : nat -> QuantumCircuit -> Z -> Counts)
    (grad_output : Tensor) (w : World) (r i : nat) (v : R)
    (rest : Tensor) (self : QiskitCircuit) (p : ParamValue) :
  backend_ok backend ->
  saved_tensors w = [r; i] ->
  nth_error (heap w) i = Some ([v] :: rest) ->
  QiskitCirc w = Some self ->
  shots self <> 0%Z -> circuit self = create_circuit p ->
  jobs (fst (backward backend grad_output w))
  = jobs w ++ [mkJob (create_circuit (Number (v + s))) (shots self);
               mkJob (create_circuit (Number (v + s - s))) (shots self)]
  /\ snd (backward backend grad_output w)
     = tensor_mul
         [[weighted_sum outcome_sign
             (backend (List.length (jobs w))
                (create_circuit (Number (v + s))) (shots self)) (shots self) 0
           - weighted_sum outcome_sign
               (backend (S (List.length (jobs w)))
                  (create_circuit (Number (v + s - s))) (shots self))
               (shots self) 0]]
         grad_output.
Proof.
  destruct w as [h qc sv js]. destruct self as [th sh c].
  cbn [saved_tensors heap QiskitCirc jobs shots circuit].
  intros Hb -> Hi -> Hsh ->.
  rewrite (backward_one backend grad_output h th p sh r i js v rest Hb Hsh Hi).
  split; reflexivity.
Qed.

(** The world of the counterexamples below: after [forward] on the input
    [[0]], the input object, which the context holds, is given the two
    entries [[1, 2]]. *)
Lemma backward_two_entries :
  nth_error
    (heap (tensor_write 0 [[1; 2]]
             (fst (forward even_backend 0 (fresh_world 0))))) 0
  = Some [[1; 2]]
  /\ saved_tensors (tensor_write 0 [[1; 2]]
                      (fst (forward even_backend 0 (fresh_world 0))))
     = [1%nat; 0%nat]
  /\ backward even_backend [[1]]
       (tensor_write 0 [[1; 2]] (fst (forward even_backend 0 (fresh_world 0))))
     = (tensor_write 0 [[1; 2]] (fst (forward even_backend 0 (fresh_world 0))),
        Raise (InvalidParameterCount 2)).
Proof.
  rewrite forward_fresh_world. cbn [fst]. unfold tensor_write.
  cbn [heap QiskitCirc saved_tensors jobs setitem nth_error].
  split; [reflexivity|]. split; [reflexivity|].
  erewrite (backward_row_not_one even_backend [[1]] _ 1 0 [1; 2] []);
    try reflexivity.
  simpl. lia.
Qed.

(** C6, as stated, fails: on a saved input vector of two entries [backward]
    runs no job at all, where the sentence gives 2 x 2; it raises at its
    first call of [run]. *)
Lemma backward_job_count_counterexample :
  nth_error
    (heap (tensor_write 0 [[1; 2]]
             (fst (forward even_backend 0 (fresh_world 0))))) 0
  = Some [[1; 2]]
  /\ jobs (fst (backward even_backend [[1]]
                  (tensor_write 0 [[1; 2]]
                     (fst (forward even_backend 0 (fresh_world 0))))))
     = jobs (tensor_write 0 [[1; 2]]
               (fst (forward even_backend 0 (fresh_world 0))))
  /\ List.length
       (jobs (fst (backward even_backend [[1]]
                     (tensor_write 0 [[1; 2]]
                        (fst (forward even_backend 0 (fresh_world 0)))))))
     <> Nat.add
          (List.length
             (jobs (tensor_write 0 [[1; 2]]
                      (fst (forward even_backend 0 (fresh_world 0))))))
          (Nat.mul 2 (List.length [1; 2])).
Proof.
  destruct backward_two_entries as [Hrow [_ Hb]].
  split; [exact Hrow|]. rewrite Hb. cbn [fst]. split; [reflexivity|].
  simpl. lia.
Qed.

(** C6, amended: in a context whose evaluator is in order, [backward] on a
    saved input vector of length n adds to the job log exactly 2 x n jobs
    when n is at most 1 (the two jobs of the one parameter, after and apart
    from the jobs logged before, that of [forward] among them), and no job
    when n is 2 or more, where it raises InvalidParameterCount. *)
Theorem backward_job_count
    (backend : nat -> QuantumCircuit -> Z -> Counts)
    (grad_output : Tensor) (w : World) (r i : nat) (row : list R)
    (rest : Tensor) (self : QiskitCircuit) (p : ParamValue) :
  backend_ok backend ->
  saved_tensors w = [r; i] ->
  nth_error (heap w) i = Some (row :: rest) ->
  QiskitCirc w = Some self ->
  shots self <> 0%Z -> circuit self = create_circuit p ->
  exists new,
    jobs (fst (backward backend grad_output w)) = jobs w ++ new
    /\ List.length new
       = (if (List.length row <=? 1)%nat then 2 * List.length row else 0)%nat
    /\ ((2 <= List.length row)%nat ->
        snd (backward backend grad_output w)
        = Raise (InvalidParameterCount (List.length row))).
Proof.
  intros Hb Hsv Hi Hqc Hsh Hc.
  destruct (Nat.eq_dec (List.length row) 1) as [Hone|Hnot].
  - destruct row as [|v [|y row]]; try discriminate.
    destruct (backward_row_one backend grad_output w r i v rest self p
                Hb Hsv Hi Hqc Hsh Hc) as [Hjobs _].
    eexists. split; [exact Hjobs|]. split; [reflexivity|].
    simpl. lia.
  - rewrite (backward_row_not_one backend grad_output w r i row rest self
               Hsv Hi Hqc Hnot).
    exists []. cbn [fst snd]. rewrite app_nil_r. split; [reflexivity|].
    destruct row as [|a [|b row]]; [split; [reflexivity | simpl; lia]
                                  | contradiction |].
    split; [reflexivity|]. intros _. reflexivity.
Qed.

Lemma backward_job_count_witness :
  exists new,
    jobs (fst (backward even_backend [[1]]
                 (fst (forward even_backend 0 (fresh_world 0)))))
    = jobs (fst (forward even_backend 0 (fresh_world 0))) ++ new
    /\ List.length new
       = (if (List.length [0%R] <=? 1)%nat then 2 * List.length [0%R] else 0)%nat
    /\ ((2 <= List.length [0%R])%nat ->
        snd (backward even_backend [[1]]
               (fst (forward even_backend 0 (fresh_world 0))))
        = Raise (InvalidParameterCount (List.length [0%R]))).
Proof.
  apply (backward_job_count even_backend [[1]]
           (fst (forward even_backend 0 (fresh_world 0))) 1 0 [0] []
           (mkQiskitCircuit (Number 0) 100 (create_circuit (Number 0)))
           (Number 0)).
  - exact even_backend_ok.
  - rewrite forward_fresh_world. reflexivity.
  - rewrite forward_fresh_world. reflexivity.
  - rewrite forward_fresh_world. reflexivity.
  - discriminate.
  - reflexivity.
Defined.

Lemma job_expectation_one (backend : nat -> QuantumCircuit -> Z -> Counts)
    (n : nat) (c : QuantumCircuit) (sh : Z) :
  backend_ok backend -> sh <> 0%Z ->
  job_expectation backend n (mkJob c sh)
  = Ok [weighted_sum outcome_sign (backend n c sh) sh 0].
Proof.
  intros Hb Hsh. unfold job_expectation. cbn [job_circuit job_shots].
  now rewrite (N_qubit_expectation_Z_closed _ sh 1 Hsh (Hb _ _ _)).
Qed.

Lemma tensor_mul_scalar (gradient : list R) (u : R) :
  tensor_mul [gradient] [[u]] = Ok [map (fun d => d * u) gradient].
Proof.
  assert (Hrow : forall l,
             comprehension (fun x => Ok (x * u)) l = Ok (map (fun d => d * u) l)).
  { induction l as [|x l IH]; simpl; [reflexivity | now rewrite IH]. }
  unfold tensor_mul. cbn [broadcast comprehension rbind].
  destruct gradient as [|d [|d' gradient]].
  - reflexivity.
  - reflexivity.
  - cbn [broadcast]. rewrite Hrow. reflexivity.
Qed.

Lemma comprehension_products (l : list (R * R)) :
  comprehension (fun xy => Ok (fst xy * snd xy)) l
  = Ok (map (fun xy => fst xy * snd xy) l).
Proof. induction l as [|xy l IH]; simpl; [reflexivity | now rewrite IH]. Qed.

(** The product of two one-row tensors of one shape is entry by entry. *)
Lemma tensor_mul_same_shape (gradient grow : list R) :
  List.length grow = List.length gradient ->
  tensor_mul [gradient] [grow]
  = Ok [map (fun du => fst du * snd du) (combine gradient grow)].
Proof.
  intros Hlen. unfold tensor_mul. cbn [broadcast comprehension].
  destruct gradient as [|d [|d' gradient]].
  - destruct grow; [reflexivity | discriminate].
  - destruct grow as [|u [|u' grow]]; try discriminate. reflexivity.
  - destruct grow as [|u [|u' grow]]; try discriminate.
    cbn [broadcast]. rewrite Hlen, Nat.eqb_refl.
    rewrite comprehension_products. reflexivity.
Qed.

(** C7, as stated, fails: on a saved input vector of two entries [backward]
    returns no gradient vector; it raises InvalidParameterCount. *)
Lemma backward_gradient_counterexample :
  nth_error
    (heap (tensor_write 0 [[1; 2]]
             (fst (forward even_backend 0 (fresh_world 0))))) 0
  = Some [[1; 2]]
  /\ snd (backward even_backend [[1]]
            (tensor_write 0 [[1; 2]]
               (fst (forward even_backend 0 (fresh_world 0)))))
     = Raise (InvalidParameterCount 2)
  /\ (forall t,
        snd (backward even_backend [[1]]
               (tensor_write 0 [[1; 2]]
                  (fst (forward even_backend 0 (fresh_world 0)))))
        <> Ok t).
Proof.
  destruct backward_two_entries as [Hrow [_ Hb]].
  split; [exact Hrow|]. rewrite Hb. cbn [snd]. split; [reflexivity|].
  intros t. discriminate.
Qed.

(** C7, amended: in a context whose evaluator is in order, [backward] on a
    saved input vector of length at most 1 assembles the contributions (for
    the one parameter, the difference of the expectations of its two jobs)
    into a gradient vector as long as the saved input vector and returns
    that vector multiplied by the upstream gradient, entry by entry on an
    upstream gradient of its shape and each entry by [u] on an upstream
    gradient [[u]]; on a vector of length 2 or more it returns no gradient
    and raises InvalidParameterCount. *)
Theorem backward_gradient
    (backend : nat -> QuantumCircuit -> Z -> Counts)
    (grad_output : Tensor) (w : World) (r i : nat) (row : list R)
    (rest : Tensor) (self : QiskitCircuit) (p : ParamValue) :
  backend_ok backend ->
  saved_tensors w = [r; i] ->
  nth_error (heap w) i = Some (row :: rest) ->
  QiskitCirc w = Some self ->
  shots self <> 0%Z -> circuit self = create_circuit p ->
  ((List.length row <= 1)%nat ->
   exists gradient,
     List.length gradient = List.length row
     /\ snd (backward backend grad_output w) = tensor_mul [gradient] grad_output
     /\ (forall grow,
           List.length grow = List.length gradient ->
           tensor_mul [gradient] [grow]
           = Ok [map (fun du => fst du * snd du) (combine gradient grow)])
     /\ (forall u, tensor_mul [gradient] [[u]] = Ok [map (fun d => d * u) gradient])
     /\ (forall v,
           row = [v] ->
           exists j_plus j_minus e_plus e_minus,
             jobs (fst (backward backend grad_output w))
             = jobs w ++ [j_plus; j_minus]
             /\ job_expectation backend (List.length (jobs w)) j_plus
                = Ok [e_plus]
             /\ job_expectation backend (S (List.length (jobs w))) j_minus
                = Ok [e_minus]
             /\ gradient = [e_plus - e_minus]))
  /\ ((2 <= List.length row)%nat ->
      snd (backward backend grad_output w)
      = Raise (InvalidParameterCount (List.length row))).
Proof.
  intros Hb Hsv Hi Hqc Hsh Hc. split.
  - intros Hle. destruct row as [|v [|y row]]; [| |simpl in Hle; lia].
    + rewrite (backward_row_not_one backend grad_output w r i [] rest self
                 Hsv Hi Hqc) by discriminate.
      exists []. cbn [snd]. split; [reflexivity|]. split; [reflexivity|].
      split; [apply tensor_mul_same_shape|]. split; [apply tensor_mul_scalar|].
      intros v Hv. discriminate.
    + destruct (backward_row_one backend grad_output w r i v rest self p
                  Hb Hsv Hi Hqc Hsh Hc) as [Hjobs Hres].
      eexists. split; [|split; [exact Hres|]]; [reflexivity|].
      split; [apply tensor_mul_same_shape|]. split; [apply tensor_mul_scalar|].
      intros v' Hv'. inversion Hv'; subst v'.
      eexists _, _, _, _. split; [exact Hjobs|].
      split; [apply (job_expectation_one backend _ _ _ Hb Hsh)|].
      split; [apply (job_expectation_one backend _ _ _ Hb Hsh)|]. reflexivity.
  - intros Hge.
    rewrite (backward_row_not_one backend grad_output w r i row rest self
               Hsv Hi Hqc) by lia.
    destruct row as [|a [|b row]]; simpl in Hge; try lia. reflexivity.
Qed.

Lemma backward_gradient_witness :
  ((List.length [0%R] <= 1)%nat ->
   exists gradient,
     List.length gradient = List.length [0%R]
     /\ snd (backward even_backend [[1]]
               (fst (forward even_backend 0 (fresh_world 0))))
        = tensor_mul [gradient] [[1]]
     /\ (forall grow,
           List.length grow = List.length gradient ->
           tensor_mul [gradient] [grow]
           = Ok [map (fun du => fst du * snd du) (combine gradient grow)])
     /\ (forall u, tensor_mul [gradient] [[u]] = Ok [map (fun d => d * u) gradient])
     /\ (forall v,
           [0] = [v] ->
           exists j_plus j_minus e_plus e_minus,
             jobs (fst (backward even_backend [[1]]
                          (fst (forward even_backend 0 (fresh_world 0)))))
             = jobs (fst (forward even_backend 0 (fresh_world 0)))
               ++ [j_plus; j_minus]
             /\ job_expectation even_backend
                  (List.length
                     (jobs (fst (forward even_backend 0 (fresh_world 0)))))
                  j_plus = Ok [e_plus]
             /\ job_expectation even_backend
                  (S (List.length
                        (jobs (fst (forward even_backend 0 (fresh_world 0))))))
                  j_minus = Ok [e_minus]
             /\ gradient = [e_plus - e_minus]))
  /\ ((2 <= List.length [0%R])%nat ->
      snd (backward even_backend [[1]]
             (fst (forward even_backend 0 (fresh_world 0))))
      = Raise (InvalidParameterCount (List.length [0%R]))).
Proof.
  apply (backward_gradient even_backend [[1]]
           (fst (forward even_backend 0 (fresh_world 0))) 1 0 [0] []
           (mkQiskitCircuit (Number 0) 100 (create_circuit (Number 0)))
           (Number 0)).
  - exact even_backend_ok.
  - rewrite forward_fresh_world. reflexivity.
  - rewrite forward_fresh_world. reflexivity.
  - rewrite forward_fresh_world. reflexivity.
  - discriminate.
  - reflexivity.
Defined.

(** C1, on the code: after [forward] on the input [[v]], [backward] runs
    its first job at [v + s] and its second job at [(v + s) - s], which is
    [v], the unshifted input, and not [v - s]: the item assignment for the
    shift down reads the entry that the shift up has already raised, the
    two names being one list. *)
Theorem backward_shift_down_reads_shifted_entry (v : R) :
  map job_angles
    (jobs (fst (backward even_backend [[1]]
                  (fst (forward even_backend 0 (fresh_world v))))))
  = [[Number v]; [Number (v + s)]; [Number (v + s - s)]]
  /\ v + s - s = v
  /\ v + s - s <> v - s.
Proof.
  rewrite forward_fresh_world. cbn [fst].
  erewrite (backward_one even_backend [[1]] _ _ _ 100 1 0 _ v []);
    [| exact even_backend_ok | discriminate | reflexivity].
  cbn [fst jobs app map job_angles job_circuit create_circuit nth_error params].
  split; [reflexivity|]. split; [lra|].
  unfold s. pose proof PI_RGT_0. lra.
Qed.

(** C8, as stated, fails: the context holds the input object itself.  After
    [forward] on the input [[0]], an in-place write of [[5]] to the input
    object makes [backward] run its jobs from 5 instead of 0. *)
Lemma forward_saves_by_value_counterexample :
  saved_tensors (fst (forward even_backend 0 (fresh_world 0))) = [1%nat; 0%nat]
  /\ map job_angles
       (jobs (fst (backward even_backend [[1]]
                     (fst (forward even_backend 0 (fresh_world 0))))))
     = [[Number 0]; [Number (0 + s)]; [Number (0 + s - s)]]
  /\ map job_angles
       (jobs (fst (backward even_backend [[1]]
                     (tensor_write 0 [[5]]
                        (fst (forward even_backend 0 (fresh_world 0)))))))
     = [[Number 0]; [Number (5 + s)]; [Number (5 + s - s)]]
  /\ jobs (fst (backward even_backend [[1]]
                  (tensor_write 0 [[5]]
                     (fst (forward even_backend 0 (fresh_world 0))))))
     <> jobs (fst (backward even_backend [[1]]
                     (fst (forward even_backend 0 (fresh_world 0))))).
Proof.
  rewrite forward_fresh_world. cbn [fst saved_tensors].
  unfold tensor_write. cbn [heap QiskitCirc saved_tensors jobs setitem].
  erewrite (backward_one even_backend [[1]] _ _ _ 100 1 0 _ 0 []);
    [| exact even_backend_ok | discriminate | reflexivity].
  erewrite (backward_one even_backend [[1]] _ _ _ 100 1 0 _ 5 []);
    [| exact even_backend_ok | discriminate | reflexivity].
  cbn [fst jobs app map job_angles job_circuit create_circuit nth_error params].
  repeat split.
  intros E. inversion E. lra.
Qed.

(** C8, amended: a returning [forward] on the input object [i] has run the
    evaluator on the row [i[0]], returns a new tensor object holding the
    expectation vector [run] returned, unchanged, and leaves in the context
    that output object and the input object [i] itself, a reference and no
    copy; the content of [i] is what it was. *)
Theorem forward_saves_and_returns
    (backend : nat -> QuantumCircuit -> Z -> Counts)
    (i out : nat) (w0 w1 : World) :
  forward backend i w0 = (w1, Ok out) ->
  exists row rest exp_value self',
    nth_error (heap w0) i = Some (row :: rest)
    /\ run backend row (evaluator w0) (jobs w0) = (self', jobs w1, Ok exp_value)
    /\ nth_error (heap w1) out = Some [exp_value]
    /\ saved_tensors w1 = [out; i]
    /\ nth_error (heap w1) i = Some (row :: rest).
Proof.
  intros Hfw.
  destruct (forward_returns backend i out w0 w1 Hfw)
    as [row [rest [exp_value [self' [Hi [Hrun [Hout Hw1]]]]]]].
  exists row, rest, exp_value, self'.
  split; [assumption|]. split; [assumption|].
  rewrite Hw1. cbn [heap saved_tensors]. split; [|split; [reflexivity|]].
  - rewrite Hout, nth_error_app2, Nat.sub_diag; [reflexivity | lia].
  - rewrite nth_error_app1; [assumption|].
    apply nth_error_Some. rewrite Hi. discriminate.
Qed.

Lemma forward_saves_and_returns_witness :
  exists row rest exp_value self',
    nth_error (heap (fresh_world 0)) 0 = Some (row :: rest)
    /\ run even_backend row (evaluator (fresh_world 0)) (jobs (fresh_world 0))
       = (self', jobs (fst (forward even_backend 0 (fresh_world 0))),
          Ok exp_value)
    /\ nth_error (heap (fst (forward even_backend 0 (fresh_world 0)))) 1
       = Some [exp_value]
    /\ saved_tensors (fst (forward even_backend 0 (fresh_world 0)))
       = [1%nat; 0%nat]
    /\ nth_error (heap (fst (forward even_backend 0 (fresh_world 0)))) 0
       = Some (row :: rest).
Proof.
  apply (forward_saves_and_returns even_backend 0 1 (fresh_world 0)
           (fst (forward even_backend 0 (fresh_world 0)))).
  rewrite forward_fresh_world. reflexivity.
Defined.

(** C9: the end of [Net.forward] turns a bridge output [[e]] into the pair
    [[(e+1)/2, 1-(e+1)/2]], whose components sum to 1; the first component
    lies in [0, 1] when [e] lies in [-1, 1]. *)
Theorem Net_forward_tail_pair (e : R) :
  Net_forward_tail [[e]] = [[(e + 1) / 2; 1 - (e + 1) / 2]]
  /\ (e + 1) / 2 + (1 - (e + 1) / 2) = 1
  /\ (-1 <= e <= 1 -> 0 <= (e + 1) / 2 <= 1).
Proof.
  split; [reflexivity|]. split; lra.
Qed.

Lemma Net_forward_tail_pair_witness :
  Net_forward_tail [[0]] = [[(0 + 1) / 2; 1 - (0 + 1) / 2]]
  /\ (0 + 1) / 2 + (1 - (0 + 1) / 2) = 1
  /\ 0 <= (0 + 1) / 2 <= 1.
Proof.
  destruct (Net_forward_tail_pair 0) as [H1 [H2 H3]].
  split; [exact H1|]. split; [exact H2|]. apply H3. lra.
Defined.

(** * Further properties of the code *)

(** ** [to_numbers], [bind] and [run] *)

(** X1: [to_numbers] returns the entries of its argument, in order; so it
    keeps the length and maps a concatenation to the concatenation. *)
Theorem to_numbers_in_order (a b : list R) :
  to_numbers a = a
  /\ List.length (to_numbers a) = List.length a
  /\ to_numbers (a ++ b) = to_numbers a ++ to_numbers b.
Proof.
  rewrite !to_numbers_id. auto.
Qed.

Lemma setitem_setitem {A : Type} (l : list A) (k : nat) (u v : A) :
  setitem (setitem l k u) k v = setitem l k v.
Proof.
  revert k. induction l as [|a l IH]; intros [|k]; simpl; auto.
  now rewrite IH.
Qed.

Lemma nth_error_setitem {A : Type} (l : list A) (k : nat) (u a : A) :
  nth_error l k = Some a -> nth_error (setitem l k u) k = Some u.
Proof.
  revert k. induction l as [|b l IH]; intros [|k]; simpl; try discriminate; auto.
Qed.

(** X2: binding an angle leaves no trace of the angle bound before: [bind]
    at [y] after [bind] at [x] gives the evaluator, and the outcome, of
    [bind] at [y] alone. *)
Theorem bind_last_angle_wins (self : QiskitCircuit) (x y : R) :
  bind [y] (fst (bind [x] self)) = bind [y] self.
Proof.
  unfold bind. rewrite !to_numbers_id. cbn [map shots circuit theta].
  unfold set_params, getitem.
  destruct (nth_error (circuit self) 2) as [[[g qargs] cargs]|] eqn:E;
    cbn [rbind fst shots circuit theta].
  - rewrite (nth_error_setitem _ _ _ _ E). cbn [rbind name].
    rewrite setitem_setitem. reflexivity.
  - rewrite E. reflexivity.
Qed.

Lemma run_created (backend : nat -> QuantumCircuit -> Z -> Counts)
    (i : list R) (self : QiskitCircuit) (jobs : list Job) (p : ParamValue) :
  circuit self = create_circuit p ->
  (exists x,
     i = [x]
     /\ fst (run backend i self jobs)
        = (mkQiskitCircuit (Number x) (shots self) (create_circuit (Number x)),
           jobs ++ [mkJob (create_circuit (Number x)) (shots self)]))
  \/ (List.length i <> 1%nat /\ fst (run backend i self jobs) = (self, jobs)).
Proof.
  intros Hc. destruct (Nat.eq_dec (List.length i) 1) as [Hlen|Hlen].
  - left. destruct i as [|x [|y i]]; try discriminate. exists x.
    split; [reflexivity|]. now rewrite (run_one backend x self jobs p Hc).
  - right. split; [assumption|]. now rewrite run_wrong_length.
Qed.

Lemma evaluations_numeric (backend : nat -> QuantumCircuit -> Z -> Counts)
    (inputs : list (list R)) :
  forall self jobs p,
    circuit self = create_circuit p ->
    exists new,
      snd (evaluations backend inputs self jobs) = jobs ++ new
      /\ Forall (fun j => exists x, job_angles j = [Number x]
                                     /\ job_shots j = shots self) new
      /\ List.length new
         = List.length (filter (fun i => Nat.eqb (List.length i) 1) inputs).
Proof.
  induction inputs as [|i inputs IH]; intros self jobs p Hc; simpl.
  - exists []. rewrite app_nil_r. auto.
  - destruct (run_created backend i self jobs p Hc) as [[x [-> Hrun]]|[Hlen Hrun]].
    + destruct (run backend [x] self jobs) as [[self' jobs'] r].
      simpl in Hrun. inversion Hrun; subst self' jobs'.
      destruct (IH (mkQiskitCircuit (Number x) (shots self)
                      (create_circuit (Number x)))
                  (jobs ++ [mkJob (create_circuit (Number x)) (shots self)])
                  (Number x) eq_refl) as [new [Hj [Hall Hn]]].
      exists (mkJob (create_circuit (Number x)) (shots self) :: new).
      rewrite Hj, <- app_assoc. split; [reflexivity|]. split.
      * constructor; [|exact Hall]. exists x. split; reflexivity.
      * simpl. now rewrite Hn.
    + destruct (run backend i self jobs) as [[self' jobs'] r].
      simpl in Hrun. inversion Hrun; subst self' jobs'.
      destruct (IH self jobs p Hc) as [new [Hj [Hall Hn]]].
      exists new. split; [assumption|]. split; [assumption|].
      apply Nat.eqb_neq in Hlen. now rewrite Hlen.
Qed.

(** X3: whatever angle vectors a newly constructed evaluator is run on,
    every job it gives the simulator has a number as the RY angle, never the
    symbolic parameter, and the evaluator's shot count; and it runs one job
    for each vector of length 1 and none for the others. *)
Theorem evaluations_jobs_are_bound
    (backend : nat -> QuantumCircuit -> Z -> Counts)
    (inputs : list (list R)) (sh : Z) :
  Forall (fun j => exists x, job_angles j = [Number x] /\ job_shots j = sh)
    (snd (evaluations backend inputs (QiskitCircuit_init sh) []))
  /\ List.length (snd (evaluations backend inputs (QiskitCircuit_init sh) []))
     = List.length (filter (fun i => Nat.eqb (List.length i) 1) inputs).
Proof.
  destruct (evaluations_numeric backend inputs (QiskitCircuit_init sh) []
              (Symbolic "Theta") eq_refl) as [new [Hj [Hall Hn]]].
  rewrite Hj. simpl. auto.
Qed.

(** ** Edge cases and a closed form of [N_qubit_expectation_Z] *)

(** X4: with a shot count of zero, [N_qubit_expectation_Z] returns the zero
    vector for the empty dictionary and raises ZeroDivisionError for every
    other dictionary, at its first key and whatever the keys are. *)
Theorem expectation_zero_shots (n : nat) :
  N_qubit_expectation_Z [] 0 n = Ok (repeat 0 n)
  /\ (forall k v counts,
        N_qubit_expectation_Z ((k, v) :: counts) 0 n = Raise ZeroDivisionError).
Proof.
  split; [reflexivity|]. intros k v counts.
  unfold N_qubit_expectation_Z. cbn [keys map fst expectation_loop].
  unfold expectation_step. cbn [dict_getitem]. rewrite String.eqb_refl.
  reflexivity.
Qed.

Lemma comprehension_app {A B : Type} (f : A -> result B) (a b : list A) :
  comprehension f (a ++ b)
  = (xs <-? comprehension f a ; ys <-? comprehension f b ; Ok (xs ++ ys))%res.
Proof.
  induction a as [|x a IH]; simpl.
  - destruct (comprehension f b); reflexivity.
  - destruct (f x) as [y|e]; simpl; [|reflexivity].
    rewrite IH. destruct (comprehension f a) as [xs|e]; simpl; [|reflexivity].
    destruct (comprehension f b); reflexivity.
Qed.

Lemma get_length_none (key : string) : String.get (String.length key) key = None.
Proof. induction key as [|c key IH]; simpl; auto. Qed.

Lemma bits_prefix_ok (key : string) (perc : R) (qs : list nat) :
  forallb (bit_at key) qs = true ->
  exists xs,
    comprehension
      (fun i => (c <-? str_getitem key i ; b <-? float_of_char c ;
                 Ok ((b - 1 / 2) * 2 * perc))%res) qs
    = Ok xs.
Proof.
  induction qs as [|q qs IH]; simpl; intros H; [now exists []|].
  apply andb_prop in H. destruct H as [Hq Hqs].
  rewrite (bit_at_sign key q perc Hq). simpl.
  destruct (IH Hqs) as [xs ->]. simpl. eauto.
Qed.

(** X5: if the first key of the dictionary is a bit string shorter than the
    number of qubits asked for, [N_qubit_expectation_Z] raises IndexError
    (the shot count not being zero). *)
Theorem expectation_short_key (k : string) (v : Z) (counts : Counts)
    (shots : Z) (n : nat) :
  shots <> 0%Z ->
  bitstringb (String.length k) k = true ->
  (String.length k < n)%nat ->
  N_qubit_expectation_Z ((k, v) :: counts) shots n = Raise IndexError.
Proof.
  intros Hsh Hbits Hlen.
  unfold N_qubit_expectation_Z. cbn [keys map fst expectation_loop].
  unfold expectation_step. cbn [dict_getitem]. rewrite String.eqb_refl.
  cbn [rbind]. rewrite (truediv_nonzero v shots Hsh). cbn [rbind].
  unfold check_of.
  replace n with (String.length k + S (n - S (String.length k)))%nat by lia.
  rewrite seq_app, comprehension_app.
  destruct (bits_prefix_ok k (IZR v / IZR shots) _ Hbits) as [xs ->].
  cbn [rbind seq comprehension Nat.add]. unfold str_getitem.
  rewrite get_length_none. reflexivity.
Qed.

Lemma expectation_short_key_witness :
  N_qubit_expectation_Z [("0"%string, 100%Z)] 100 2 = Raise IndexError.
Proof.
  apply (expectation_short_key "0" 100 [] 100 2).
  - discriminate.
  - reflexivity.
  - simpl. lia.
Defined.

(** X6: if the first key starts with a character that is no decimal digit,
    [N_qubit_expectation_Z] on at least one qubit raises ValueError (the
    shot count not being zero). *)
Theorem expectation_bad_character (c : ascii) (k : string) (v : Z)
    (counts : Counts) (shots : Z) (n : nat) :
  shots <> 0%Z ->
  float_of_char c = Raise ValueError ->
  N_qubit_expectation_Z ((String c k, v) :: counts) shots (S n)
  = Raise ValueError.
Proof.
  intros Hsh Hc.
  unfold N_qubit_expectation_Z. cbn [keys map fst expectation_loop].
  unfold expectation_step. cbn [dict_getitem]. rewrite String.eqb_refl.
  cbn [rbind]. rewrite (truediv_nonzero v shots Hsh). cbn [rbind].
  unfold check_of. cbn [seq comprehension]. unfold str_getitem.
  cbn [String.get rbind]. rewrite Hc. reflexivity.
Qed.

Lemma expectation_bad_character_witness :
  N_qubit_expectation_Z [(" 1"%string, 100%Z)] 100 1 = Raise ValueError.
Proof.
  apply (expectation_bad_character " " "1" 100 [] 100 0).
  - discriminate.
  - reflexivity.
Defined.

Lemma weighted_sum_ones (counts : Counts) (shots : Z) (q : nat) :
  forallb (fun key => bit_at key q) (keys counts) = true ->
  weighted_sum outcome_sign counts shots q
  = (2 * IZR (ones_at counts q) - IZR (total counts)) / IZR shots.
Proof.
  unfold weighted_sum, ones_at, total.
  induction counts as [|[k v] counts IH]; cbn [keys map fst snd fold_right forallb];
    intros H.
  - unfold Rdiv. ring.
  - apply andb_prop in H. destruct H as [Hk H]. rewrite (IH H).
    unfold bit_at in Hk. unfold outcome_sign.
    destruct (String.get q k) as [c|]; [|discriminate].
    destruct (Ascii.eqb c "0") eqn:E0.
    + apply Ascii.eqb_eq in E0. subst c. cbn [Ascii.eqb Bool.eqb].
      rewrite plus_IZR. unfold Rdiv. ring.
    + rewrite orb_false_l in Hk. rewrite Hk.
      rewrite !plus_IZR. unfold Rdiv. ring.
Qed.

Lemma outcomes_ok_bit (n : nat) (counts : Counts) (q : nat) :
  outcomes_ok n counts = true -> (q < n)%nat ->
  forallb (fun key => bit_at key q) (keys counts) = true.
Proof.
  unfold outcomes_ok. intros H Hq. apply andb_prop in H. destruct H as [_ H].
  rewrite forallb_forall in *. intros key Hin. specialize (H key Hin).
  unfold bitstringb in H. rewrite forallb_forall in H. apply H.
  apply in_seq. lia.
Qed.

(** X7: for a dictionary of outcomes whose counts are non-negative and sum
    to a positive shot count, the expectation at each qubit position is
    twice the relative frequency of a "1" at that position, minus one. *)
Theorem expectation_from_ones (counts : Counts) (shots : Z) (n : nat) :
  outcomes_ok n counts = true -> normalizedb counts shots = true ->
  (0 < shots)%Z ->
  N_qubit_expectation_Z counts shots n
  = Ok (map (fun q => 2 * (IZR (ones_at counts q) / IZR shots) - 1) (seq 0 n)).
Proof.
  intros Hok Hnorm Hpos.
  rewrite N_qubit_expectation_Z_closed by (lia || assumption).
  f_equal. apply map_ext_in. intros q Hq. apply in_seq in Hq.
  rewrite (weighted_sum_ones counts shots q) by (apply (outcomes_ok_bit n); [assumption | lia]).
  unfold normalizedb in Hnorm. apply andb_prop in Hnorm.
  destruct Hnorm as [_ Htot]. apply Z.eqb_eq in Htot. rewrite Htot.
  assert (Hs : IZR shots <> 0) by (apply not_0_IZR; lia).
  field. exact Hs.
Qed.

Lemma expectation_from_ones_witness :
  N_qubit_expectation_Z [("0"%string, 30%Z); ("1"%string, 70%Z)] 100 1
  = Ok (map (fun q =>
               2 * (IZR (ones_at [("0"%string, 30%Z); ("1"%string, 70%Z)] q)
                    / IZR 100) - 1) (seq 0 1)).
Proof.
  apply (expectation_from_ones [("0"%string, 30%Z); ("1"%string, 70%Z)] 100 1);
    reflexivity.
Defined.

(** ** What the two passes keep *)

Section Keeps.

Variable Rel : World -> World -> Prop.
Hypothesis Rel_refl : forall w, Rel w w.
Hypothesis Rel_trans : forall a b c, Rel a b -> Rel b c -> Rel a c.

Lemma keeps_pure {A : Type} (m : M A) :
  (forall w, fst (m w) = w) -> keeps Rel m.
Proof. intros H w. rewrite H. apply Rel_refl. Qed.

Lemma keeps_mbind {A B : Type} (m : M A) (f : A -> M B) :
  keeps Rel m -> (forall a, keeps Rel (f a)) -> keeps Rel (mbind m f).
Proof.
  intros Hm Hf w. unfold mbind. specialize (Hm w).
  destruct (m w) as [w' [a|e]]; simpl in *; [|assumption].
  eapply Rel_trans; [eassumption | apply Hf].
Qed.

Lemma keeps_for_range {S : Type} (body : nat -> S -> M S) (ks : list nat) :
  (forall k st, keeps Rel (body k st)) ->
  forall st, keeps Rel (for_range ks body st).
Proof.
  intros Hbody. induction ks as [|k ks IH]; intros st; simpl.
  - apply keeps_pure. reflexivity.
  - apply keeps_mbind; [apply Hbody | apply IH].
Qed.

Lemma keeps_lift {A : Type} (r : result A) : keeps Rel (lift r).
Proof. apply keeps_pure. reflexivity. Qed.

Lemma keeps_deref (l : nat) : keeps Rel (deref l).
Proof.
  apply keeps_pure. intros w. unfold deref.
  destruct (nth_error (heap w) l); reflexivity.
Qed.

Lemma keeps_unpack_saved_tensors : keeps Rel unpack_saved_tensors.
Proof.
  apply keeps_pure. intros w. unfold unpack_saved_tensors.
  destruct (saved_tensors w) as [|a [|b [|c l]]]; reflexivity.
Qed.

(** [backward] keeps every relation that a call of [run] on the context's
    evaluator keeps: it changes the world through such calls only. *)
Lemma keeps_backward (backend : nat -> QuantumCircuit -> Z -> Counts)
    (grad_output : Tensor) :
  (forall i, keeps Rel (QiskitCirc_run backend i)) ->
  keeps Rel (backward backend grad_output).
Proof.
  intros Hrun. unfold backward.
  apply keeps_mbind; [apply keeps_unpack_saved_tensors|]. intros [forward_tensor i].
  apply keeps_mbind; [apply keeps_deref|]. intros t.
  apply keeps_mbind; [apply keeps_lift|]. intros row.
  apply keeps_mbind; [|intros st; apply keeps_lift].
  apply keeps_for_range. intros k [input_numbers gradient]. unfold backward_body.
  apply keeps_mbind; [apply keeps_lift|]. intros x.
  apply keeps_mbind; [apply Hrun|]. intros exp_plus.
  apply keeps_mbind; [apply keeps_lift|]. intros exp_value_plus.
  apply keeps_mbind; [apply keeps_lift|]. intros x'.
  apply keeps_mbind; [apply Hrun|]. intros exp_minus.
  apply keeps_mbind; [apply keeps_lift|]. intros exp_value_minus.
  apply keeps_pure. reflexivity.
Qed.

End Keeps.

Lemma same_tensors_refl (w : World) : same_tensors w w.
Proof. split; reflexivity. Qed.

Lemma same_tensors_trans (a b c : World) :
  same_tensors a b -> same_tensors b c -> same_tensors a c.
Proof. intros [H1 H2] [H3 H4]. split; congruence. Qed.

Lemma QiskitCirc_run_same_tensors
    (backend : nat -> QuantumCircuit -> Z -> Counts) (i : list R) :
  keeps same_tensors (QiskitCirc_run backend i).
Proof.
  intros w. unfold QiskitCirc_run.
  destruct (QiskitCirc w) as [self|]; [|apply same_tensors_refl].
  destruct (run backend i self (jobs w)) as [[self' jobs'] r].
  split; reflexivity.
Qed.

Lemma QiskitCirc_run_stays_ok
    (backend : nat -> QuantumCircuit -> Z -> Counts) (i : list R) :
  keeps stays_ok (QiskitCirc_run backend i).
Proof.
  intros w Hok. unfold QiskitCirc_run. unfold evaluator_ok in Hok.
  destruct (QiskitCirc w) as [self|] eqn:E.
  - destruct Hok as [Hsh [p Hp]].
    destruct (run_created backend i self (jobs w) p Hp)
      as [[x [-> Hrun]]|[Hlen Hrun]];
      destruct (run backend _ self (jobs w)) as [[self' jobs'] r];
      simpl in Hrun; inversion Hrun; subst self' jobs';
      unfold evaluator_ok; cbn [fst QiskitCirc shots circuit]; eauto.
  - unfold evaluator_ok. cbn [fst]. now rewrite E.
Qed.

(** X8: [backward] never writes to a tensor and never changes what the
    context has saved, whatever the world, the upstream gradient and the
    outcome: the two shifts act on the list [to_numbers] builds, not on the
    saved input. *)
Theorem backward_keeps_tensors
    (backend : nat -> QuantumCircuit -> Z -> Counts)
    (grad_output : Tensor) (w : World) :
  heap (fst (backward backend grad_output w)) = heap w
  /\ saved_tensors (fst (backward backend grad_output w)) = saved_tensors w.
Proof.
  apply (keeps_backward same_tensors same_tensors_refl same_tensors_trans
           backend grad_output (QiskitCirc_run_same_tensors backend) w).
Qed.

Lemma forward_stays_ok (backend : nat -> QuantumCircuit -> Z -> Counts)
    (i : nat) :
  keeps stays_ok (forward backend i).
Proof.
  assert (Hrefl : forall w, stays_ok w w) by (intros w H; exact H).
  assert (Htrans : forall a b c, stays_ok a b -> stays_ok b c -> stays_ok a c)
    by (intros a b c H1 H2 H; auto).
  unfold forward.
  apply keeps_mbind; [assumption| |].
  - intros w Hok. rewrite ensure_QiskitCirc_spec. unfold evaluator_ok in *.
    cbn [fst QiskitCirc]. unfold evaluator.
    destruct (QiskitCirc w) as [self|].
    + exact Hok.
    + split; [discriminate | now exists (Symbolic "Theta")].
  - intros _. apply keeps_mbind; [assumption | now apply keeps_deref |]. intros t.
    apply keeps_mbind; [assumption | now apply keeps_lift |]. intros row.
    apply keeps_mbind; [assumption | apply QiskitCirc_run_stays_ok |].
    intros exp_value.
    apply keeps_mbind; [assumption | |].
    + intros w H. exact H.
    + intros result. apply keeps_mbind; [assumption | |].
      * intros w H. exact H.
      * intros _. now apply keeps_pure.
Qed.

(** X9: an evaluator in order (built by [QiskitCircuit_init] with a shot
    count that is not zero, and rebound by [bind] only) is still in order
    after [forward] and after [backward], whether they return or raise. *)
Theorem passes_keep_evaluator_ok
    (backend : nat -> QuantumCircuit -> Z -> Counts)
    (i : nat) (grad_output : Tensor) (w : World) :
  evaluator_ok w ->
  evaluator_ok (fst (forward backend i w))
  /\ evaluator_ok (fst (backward backend grad_output w)).
Proof.
  intros Hok. split.
  - now apply forward_stays_ok.
  - apply (keeps_backward stays_ok) with (w := w); try assumption.
    + intros w' H. exact H.
    + intros a b c H1 H2 H. auto.
    + apply QiskitCirc_run_stays_ok.
Qed.

Lemma passes_keep_evaluator_ok_witness :
  evaluator_ok (fst (forward even_backend 0 (fresh_world 0)))
  /\ evaluator_ok (fst (backward even_backend [[1]] (fresh_world 0))).
Proof.
  apply (passes_keep_evaluator_ok even_backend 0 [[1]] (fresh_world 0)).
  exact I.
Defined.

(** X10: a [forward] that raises saves nothing and creates no tensor: the
    tensors and the saved references are those from before the call, so a
    state saved by an earlier [forward] stays. *)
Theorem forward_raise_keeps_tensors
    (backend : nat -> QuantumCircuit -> Z -> Counts)
    (i : nat) (w w' : World) (e : exn) :
  forward backend i w = (w', Raise e) ->
  heap w' = heap w /\ saved_tensors w' = saved_tensors w.
Proof.
  unfold forward, mbind. rewrite ensure_QiskitCirc_spec.
  unfold deref, lift, QiskitCirc_run, torch_tensor, save_for_backward, ret.
  cbn [heap QiskitCirc saved_tensors jobs].
  destruct (nth_error (heap w) i) as [[|row rest]|]; cbn [getitem nth_error];
    try (intros H; inversion H; subst; split; reflexivity).
  cbn [heap QiskitCirc saved_tensors jobs].
  destruct (run backend row (evaluator w) (jobs w))
    as [[self' jobs'] [exp_value|e']];
    cbn [heap QiskitCirc saved_tensors jobs]; intros H; inversion H; subst.
  split; reflexivity.
Qed.

Lemma forward_raise_keeps_tensors_witness :
  heap (fst (forward even_backend 0 (mkWorld [[[1; 2]]] None [7%nat; 0%nat] [])))
  = heap (mkWorld [[[1; 2]]] None [7%nat; 0%nat] [])
  /\ saved_tensors
       (fst (forward even_backend 0 (mkWorld [[[1; 2]]] None [7%nat; 0%nat] [])))
     = saved_tensors (mkWorld [[[1; 2]]] None [7%nat; 0%nat] []).
Proof.
  apply (forward_raise_keeps_tensors even_backend 0
           (mkWorld [[[1; 2]]] None [7%nat; 0%nat] [])
           (fst (forward even_backend 0
                   (mkWorld [[[1; 2]]] None [7%nat; 0%nat] [])))
           (InvalidParameterCount 2)).
  reflexivity.
Defined.

(** X11: [backward] on a saved input row that does not have exactly one
    entry runs no job and leaves the world as it was: on the empty row it
    returns the product of the empty gradient row and the upstream gradient,
    on a longer row it raises InvalidParameterCount at its first call of
    [run]. *)
Theorem backward_wrong_length
    (backend : nat -> QuantumCircuit -> Z -> Counts)
    (grad_output : Tensor) (w : World) (r i : nat) (row : list R)
    (rest : Tensor) (self : QiskitCircuit) :
  saved_tensors w = [r; i] ->
  nth_error (heap w) i = Some (row :: rest) ->
  QiskitCirc w = Some self ->
  List.length row <> 1%nat ->
  backward backend grad_output w
  = (w, match row with
        | [] => tensor_mul [[]] grad_output
        | _ => Raise (InvalidParameterCount (List.length row))
        end).
Proof.
  intros Hsv Hi Hqc Hlen.
  exact (backward_row_not_one backend grad_output w r i row rest self
           Hsv Hi Hqc Hlen).
Qed.

Lemma backward_wrong_length_witness :
  backward even_backend [[1]]
    (mkWorld [[[1; 2]]] (Some (QiskitCircuit_init 100)) [7%nat; 0%nat] [])
  = (mkWorld [[[1; 2]]] (Some (QiskitCircuit_init 100)) [7%nat; 0%nat] [],
     Raise (InvalidParameterCount 2)).
Proof.
  apply (backward_wrong_length even_backend [[1]]
           (mkWorld [[[1; 2]]] (Some (QiskitCircuit_init 100)) [7%nat; 0%nat] [])
           7 0 [1; 2] [] (QiskitCircuit_init 100)).
  - reflexivity.
  - reflexivity.
  - reflexivity.
  - simpl. lia.
Defined.

Lemma run_returns (backend : nat -> QuantumCircuit -> Z -> Counts)
    (i : list R) (self self' : QiskitCircuit) (jobs jobs' : list Job)
    (expects : list R) :
  run backend i self jobs = (self', jobs', Ok expects) ->
  jobs' = jobs ++ [mkJob (circuit self') (shots self)]
  /\ shots self' = shots self.
Proof.
  unfold run. pose proof (bind_frame i self) as [_ [_ [_ Hsh]]].
  destruct (bind i self) as [self1 [u|e]]; cbn [fst] in Hsh; intros H;
    inversion H; subst. rewrite Hsh. auto.
Qed.

(** X12: a returning [forward] has run exactly one job, with the shot count
    of the evaluator the context had, or 100 if it had none, and leaves in
    the context an evaluator with that shot count: the evaluator is built
    when the attribute is absent and reused, not rebuilt, when it is there. *)
Theorem forward_one_job (backend : nat -> QuantumCircuit -> Z -> Counts)
    (i out : nat) (w0 w1 : World) :
  forward backend i w0 = (w1, Ok out) ->
  exists j self',
    jobs w1 = jobs w0 ++ [j]
    /\ QiskitCirc w1 = Some self'
    /\ job_shots j = shots self'
    /\ shots self'
       = match QiskitCirc w0 with Some self => shots self | None => 100%Z end.
Proof.
  intros Hfw.
  destruct (forward_returns backend i out w0 w1 Hfw)
    as [row [rest [exp_value [self' [Hi [Hrun [Hout Hw1]]]]]]].
  destruct (run_returns backend _ _ _ _ _ _ Hrun) as [Hjobs Hsh].
  exists (mkJob (circuit self') (shots (evaluator w0))), self'.
  split; [assumption|]. split; [rewrite Hw1; reflexivity|].
  split; [now rewrite Hsh|]. rewrite Hsh. unfold evaluator.
  destruct (QiskitCirc w0); reflexivity.
Qed.

Lemma forward_one_job_witness :
  exists j self',
    jobs (fst (forward even_backend 0 (fresh_world 0)))
    = jobs (fresh_world 0) ++ [j]
    /\ QiskitCirc (fst (forward even_backend 0 (fresh_world 0))) = Some self'
    /\ job_shots j = shots self'
    /\ shots self'
       = match QiskitCirc (fresh_world 0) with
         | Some self => shots self
         | None => 100%Z
         end.
Proof.
  apply (forward_one_job even_backend 0 1 (fresh_world 0)
           (fst (forward even_backend 0 (fresh_world 0)))).
  rewrite forward_fresh_world. reflexivity.
Defined.

(** ** How the passes compose *)

Lemma skipn_app_length {A : Type} (l new : list A) :
  skipn (List.length l) (l ++ new) = new.
Proof. induction l as [|a l IH]; simpl; auto. Qed.

(** X13: a second [forward] without a [backward] in between replaces the
    saved state: the context then holds the second output and the second
    input, and [backward] runs its two jobs from the second input's angle. *)
Theorem forward_twice_overwrites
    (backend : nat -> QuantumCircuit -> Z -> Counts)
    (grad_output : Tensor) (i1 o1 i2 o2 : nat) (w0 w1 w2 : World) :
  backend_ok backend -> evaluator_ok w0 ->
  forward backend i1 w0 = (w1, Ok o1) ->
  forward backend i2 w1 = (w2, Ok o2) ->
  exists v2 rest2,
    nth_error (heap w2) i2 = Some ([v2] :: rest2)
    /\ saved_tensors w2 = [o2; i2]
    /\ map job_angles (new_jobs w2 (fst (backward backend grad_output w2)))
       = [[Number (v2 + s)]; [Number (v2 + s - s)]].
Proof.
  intros Hb Hev H1 H2.
  assert (Hev1 : evaluator_ok w1).
  { pose proof (forward_stays_ok backend i1 w0 Hev) as H. now rewrite H1 in H. }
  destruct (forward_state backend i2 o2 w1 w2 Hev1 H2)
    as [v2 [rest2 [exp_value [sh [Hi [Hsh [Hout Hw2]]]]]]].
  assert (Hi2 : nth_error (heap w1 ++ [[exp_value]]) i2 = Some ([v2] :: rest2)).
  { rewrite nth_error_app1; [assumption|].
    apply nth_error_Some. rewrite Hi. discriminate. }
  exists v2, rest2. subst w2. cbn [heap saved_tensors].
  split; [assumption|]. split; [reflexivity|].
  rewrite (backward_one backend grad_output _ _ _ sh o2 i2 _ v2 rest2 Hb Hsh Hi2).
  unfold new_jobs. cbn [fst jobs]. rewrite skipn_app_length. reflexivity.
Qed.

Lemma forward_twice_overwrites_witness :
  exists v2 rest2,
    nth_error
      (heap (fst (forward even_backend 0
                    (fst (forward even_backend 0 (fresh_world 0)))))) 0
    = Some ([v2] :: rest2)
    /\ saved_tensors
         (fst (forward even_backend 0
                 (fst (forward even_backend 0 (fresh_world 0)))))
       = [2%nat; 0%nat]
    /\ map job_angles
         (new_jobs
            (fst (forward even_backend 0
                    (fst (forward even_backend 0 (fresh_world 0)))))
            (fst (backward even_backend [[1]]
                    (fst (forward even_backend 0
                            (fst (forward even_backend 0 (fresh_world 0))))))))
       = [[Number (v2 + s)]; [Number (v2 + s - s)]].
Proof.
  apply (forward_twice_overwrites even_backend [[1]] 0 1 0 2 (fresh_world 0)
           (fst (forward even_backend 0 (fresh_world 0)))
           (fst (forward even_backend 0
                   (fst (forward even_backend 0 (fresh_world 0)))))).
  - exact even_backend_ok.
  - exact (fresh_world_ok 0).
  - rewrite forward_fresh_world. reflexivity.
  - rewrite forward_fresh_world. reflexivity.
Defined.







(** ** The end of [Net.forward] on any tensor *)

Lemma cat_last_maps (f g : list R -> list R) (x : Tensor) :
  cat_last (map f x) (map g x) = map (fun row => f row ++ g row) x.
Proof. induction x as [|row x IH]; simpl; [reflexivity | now rewrite IH]. Qed.

(** X16: on a tensor of any shape, the end of [Net.forward] keeps the rows
    and puts after the remapped entries [(e+1)/2] of each row their
    complements [1-(e+1)/2], in the same order; if all entries of the input
    lie in [-1, 1], all entries of the output lie in [0, 1]. *)
Theorem Net_forward_tail_rows (x : Tensor) :
  Net_forward_tail x
  = map (fun row => map (fun e => (e + 1) / 2) row
                    ++ map (fun e => 1 - (e + 1) / 2) row) x
  /\ (Forall (Forall (fun e => -1 <= e <= 1)) x ->
      Forall (Forall (fun p => 0 <= p <= 1)) (Net_forward_tail x)).
Proof.
  assert (Hform : Net_forward_tail x
                  = map (fun row => map (fun e => (e + 1) / 2) row
                                    ++ map (fun e => 1 - (e + 1) / 2) row) x).
  { unfold Net_forward_tail. rewrite <- (map_id (map _ x)) at 1.
    rewrite cat_last_maps, map_map. apply map_ext. intros row.
    now rewrite map_map. }
  split; [exact Hform|]. rewrite Hform. intros H.
  apply Forall_map. apply (Forall_impl _ (P := Forall (fun e => -1 <= e <= 1)));
    [|exact H].
  intros row Hrow. apply Forall_app. split; apply Forall_map;
    apply (Forall_impl _ (P := fun e => -1 <= e <= 1)); try exact Hrow;
    intros e He; lra.
Qed.

Lemma Net_forward_tail_rows_witness :
  Net_forward_tail [[1; -1]; [0; 1]]
  = map (fun row => map (fun e => (e + 1) / 2) row
                    ++ map (fun e => 1 - (e + 1) / 2) row) [[1; -1]; [0; 1]]
  /\ Forall (Forall (fun p => 0 <= p <= 1)) (Net_forward_tail [[1; -1]; [0; 1]]).
Proof.
  destruct (Net_forward_tail_rows [[1; -1]; [0; 1]]) as [H1 H2].
  split; [exact H1|]. apply H2.
  repeat constructor; lra.
Defined.

(** ** The loss curve of the training cell *)

Lemma setitem_app {A : Type} (pre l : list A) (x v : A) :
  setitem (pre ++ x :: l) (List.length pre) v = pre ++ v :: l.
Proof. induction pre as [|a pre IH]; simpl; [reflexivity | now rewrite IH]. Qed.

Lemma normalise_from_spec (l : list R) :
  forall pre,
    normalise_from (seq (List.length pre) (List.length l)) (pre ++ l)
    = Ok (pre ++ map (fun x => x + 1) l).
Proof.
  induction l as [|x l IH]; intros pre; simpl; [reflexivity|].
  unfold getitem. rewrite nth_error_app2, Nat.sub_diag by lia. cbn [nth_error rbind].
  rewrite setitem_app.
  replace (pre ++ (x + 1) :: l) with ((pre ++ [x + 1]) ++ l)
    by now rewrite <- app_assoc.
  replace (S (List.length pre)) with (List.length (pre ++ [x + 1]))
    by (rewrite length_app; simpl; lia).
  rewrite IH, <- app_assoc. reflexivity.
Qed.

Lemma normalise_losses_spec (l : list R) :
  normalise_losses l = Ok (map (fun x => x + 1) l).
Proof. apply (normalise_from_spec l []). Qed.

Lemma sum_bounds (lo hi : R) (l : list R) :
  Forall (fun x => lo <= x <= hi) l ->
  forall a,
    a + INR (List.length l) * lo <= fold_left Rplus l a
    <= a + INR (List.length l) * hi.
Proof.
  induction 1 as [|x l Hx Hl IH]; intros a.
  - simpl. lra.
  - cbn [fold_left]. specialize (IH (a + x)).
    change (List.length (x :: l)) with (S (List.length l)). rewrite S_INR. lra.
Qed.

Lemma epoch_mean_bounds (lo hi : R) (l : list R) :
  l <> [] -> Forall (fun x => lo <= x <= hi) l ->
  exists m, epoch_mean l = Ok m /\ lo <= m <= hi.
Proof.
  intros Hne Hall. unfold epoch_mean.
  destruct l as [|x l]; [contradiction|]. cbn [List.length Nat.eqb].
  eexists. split; [reflexivity|].
  pose proof (sum_bounds lo hi (x :: l) Hall 0) as Hs.
  assert (Hn : 0 < INR (List.length (x :: l))) by (apply lt_0_INR; simpl; lia).
  set (n := INR (List.length (x :: l))) in *.
  set (t := fold_left Rplus (x :: l) 0) in *.
  split.
  - apply Rmult_le_reg_r with n; [assumption|].
    unfold Rdiv. rewrite Rmult_assoc, Rinv_l by lra. lra.
  - apply Rmult_le_reg_r with n; [assumption|].
    unfold Rdiv. rewrite Rmult_assoc, Rinv_l by lra. lra.
Qed.

Lemma epoch_means_bounds (lo hi : R) (epochs : list (list R)) :
  Forall (fun epoch => epoch <> [] /\ Forall (fun x => lo <= x <= hi) epoch)
    epochs ->
  exists means,
    comprehension epoch_mean epochs = Ok means
    /\ List.length means = List.length epochs
    /\ Forall (fun m => lo <= m <= hi) means.
Proof.
  induction 1 as [|epoch epochs [Hne Hall] _ IH]; simpl.
  - exists []. auto.
  - destruct (epoch_mean_bounds lo hi epoch Hne Hall) as [m [-> Hm]].
    destruct IH as [means [-> [Hlen Hms]]]. simpl.
    exists (m :: means). simpl. auto.
Qed.

(** X17: if every epoch has at least one example and every per-example
    loss lies in [-1, 0], the training cell's loss curve (the mean of each
    epoch, then one added to each mean) has one value per epoch, each in
    [0, 1]. *)
Theorem loss_curve_normalised (epochs : list (list R)) :
  Forall (fun epoch => epoch <> [] /\ Forall (fun x => -1 <= x <= 0) epoch)
    epochs ->
  exists curve,
    loss_curve epochs = Ok curve
    /\ List.length curve = List.length epochs
    /\ Forall (fun y => 0 <= y <= 1) curve.
Proof.
  intros H. destruct (epoch_means_bounds (-1) 0 epochs H) as [means [Hm [Hlen Hall]]].
  unfold loss_curve. rewrite Hm. cbn [rbind]. rewrite normalise_losses_spec.
  eexists. split; [reflexivity|]. split; [now rewrite length_map|].
  apply Forall_map. apply (Forall_impl _ (P := fun m => -1 <= m <= 0));
    [|exact Hall].
  intros m Hm'. lra.
Qed.

Lemma loss_curve_normalised_witness :
  exists curve,
    loss_curve [[-1; 0]; [-1 / 2]] = Ok curve
    /\ List.length curve = List.length [[-1; 0]; [-1 / 2]]
    /\ Forall (fun y => 0 <= y <= 1) curve.
Proof.
  apply (loss_curve_normalised [[-1; 0]; [-1 / 2]]).
  repeat constructor; try discriminate; lra.
Defined.

(** X18: an epoch without examples makes the loss curve raise
    ZeroDivisionError, when the epochs before it have examples. *)
Theorem loss_curve_empty_epoch (before after : list (list R)) :
  Forall (fun epoch => epoch <> []) before ->
  loss_curve (before ++ [] :: after) = Raise ZeroDivisionError.
Proof.
  intros H. unfold loss_curve. rewrite comprehension_app.
  assert (Hb : exists means, comprehension epoch_mean before = Ok means).
  { induction H as [|epoch before Hne _ IH]; simpl; [now exists []|].
    destruct epoch as [|x epoch]; [contradiction|].
    unfold epoch_mean at 1. cbn [List.length Nat.eqb rbind].
    destruct IH as [means ->]. simpl. eauto. }
  destruct Hb as [means ->]. reflexivity.
Qed.

Lemma loss_curve_empty_epoch_witness :
  loss_curve ([[-1]] ++ [] :: [[0]]) = Raise ZeroDivisionError.
Proof.
  apply (loss_curve_empty_epoch [[-1]] [[0]]).
  repeat constructor. discriminate.
Defined.

(** ** The filter on the data set *)

Lemma where_eq_from_hits (v : Z) (labels : list Z) :
  forall pre,
    Forall (fun idx => nth_error (pre ++ labels) idx = Some v)
      (where_eq_from (List.length pre) labels v).
Proof.
  induction labels as [|l labels IH]; intros pre; simpl; [constructor|].
  assert (Hrest : Forall (fun idx => nth_error (pre ++ l :: labels) idx = Some v)
                    (where_eq_from (S (List.length pre)) labels v)).
  { specialize (IH (pre ++ [l])). rewrite <- app_assoc in IH.
    rewrite length_app, Nat.add_1_r in IH. exact IH. }
  destruct (Z.eqb_spec l v) as [->|_]; [|exact Hrest].
  constructor; [|exact Hrest].
  rewrite nth_error_app2, Nat.sub_diag by lia. reflexivity.
Qed.

Lemma where_eq_from_length (v : Z) (labels : list Z) :
  forall k,
    List.length (where_eq_from k labels v) = count_occ Z.eq_dec labels v.
Proof.
  induction labels as [|l labels IH]; intros k; simpl; [reflexivity|].
  destruct (Z.eqb_spec l v) as [->|Hne].
  - destruct (Z.eq_dec v v) as [_|C]; [|contradiction]. simpl. now rewrite IH.
  - destruct (Z.eq_dec l v) as [C|_]; [contradiction|]. apply IH.
Qed.

Lemma Forall_firstn {A : Type} (P : A -> Prop) (n : nat) (l : list A) :
  Forall P l -> Forall P (firstn n l).
Proof.
  intros H. revert n. induction H as [|a l Ha _ IH]; intros [|n]; simpl;
    constructor; auto.
Qed.

Lemma fancy_index_constant {A : Type} (a : list A) (v : A) (idx : list nat) :
  Forall (fun i => nth_error a i = Some v) idx ->
  fancy_index a idx = Ok (repeat v (List.length idx)).
Proof.
  unfold fancy_index. induction 1 as [|i idx Hi _ IH]; simpl; [reflexivity|].
  unfold getitem at 1. rewrite Hi. cbn [rbind]. rewrite IH. reflexivity.
Qed.

Lemma fancy_index_app {A : Type} (a : list A) (idx1 idx2 : list nat)
    (x1 x2 : list A) :
  fancy_index a idx1 = Ok x1 -> fancy_index a idx2 = Ok x2 ->
  fancy_index a (idx1 ++ idx2) = Ok (x1 ++ x2).
Proof.
  unfold fancy_index. intros H1 H2. rewrite comprehension_app, H1, H2.
  reflexivity.
Qed.

Lemma selected_labels (labels : list Z) (v : Z) (n : nat) :
  fancy_index labels (firstn n (np_where_eq labels v))
  = Ok (repeat v (Nat.min n (count_occ Z.eq_dec labels v))).
Proof.
  rewrite (fancy_index_constant labels v).
  - rewrite length_firstn. unfold np_where_eq. now rewrite where_eq_from_length.
  - apply Forall_firstn. apply (where_eq_from_hits v labels []).
Qed.

Lemma filtered_targets_closed (labels : list Z) (n : nat) :
  filtered_targets labels n
  = Ok (repeat 0%Z (Nat.min n (count_occ Z.eq_dec labels 0%Z))
        ++ repeat 1%Z (Nat.min n (count_occ Z.eq_dec labels 1%Z))).
Proof.
  unfold filtered_targets, filter_idx.
  apply fancy_index_app; apply selected_labels.
Qed.

(** X19: filtering the targets never raises and gives [min n z] zeros
    followed by [min n o] ones, where [z] and [o] are the numbers of zeros
    and of ones among the labels: every kept label is 0 or 1 and at most
    [2 * n] labels are kept. *)
Theorem filtered_targets_zeros_then_ones (labels : list Z) (n : nat) :
  exists t,
    filtered_targets labels n = Ok t
    /\ t = repeat 0%Z (Nat.min n (count_occ Z.eq_dec labels 0%Z))
           ++ repeat 1%Z (Nat.min n (count_occ Z.eq_dec labels 1%Z))
    /\ Forall (fun l => l = 0%Z \/ l = 1%Z) t
    /\ (List.length t <= 2 * n)%nat.
Proof.
  eexists. split; [apply filtered_targets_closed|]. split; [reflexivity|]. split.
  - apply Forall_app. split; apply Forall_forall; intros l Hl;
      apply repeat_spec in Hl; auto.
  - rewrite length_app, !repeat_length. lia.
Qed.

Lemma nth_error_combine {A B : Type} (a : list A) (b : list B) (i : nat)
    (x : A) (y : B) :
  nth_error a i = Some x -> nth_error b i = Some y ->
  nth_error (combine a b) i = Some (x, y).
Proof.
  revert b i. induction a as [|a0 a IH]; intros [|b0 b] [|i]; simpl;
    try discriminate.
  - intros H1 H2. inversion H1. inversion H2. reflexivity.
  - apply IH.
Qed.

Lemma fancy_index_combine {A B : Type} (a : list A) (b : list B)
    (idx : list nat) :
  List.length a = List.length b ->
  forall xb, fancy_index b idx = Ok xb ->
  exists xa,
    fancy_index a idx = Ok xa
    /\ List.length xa = List.length xb
    /\ fancy_index (combine a b) idx = Ok (combine xa xb).
Proof.
  intros Hlen. unfold fancy_index.
  induction idx as [|i idx IH]; simpl; intros xb Hb.
  - inversion Hb. exists []. auto.
  - unfold getitem at 1 in Hb.
    destruct (nth_error b i) as [y|] eqn:Ey; [|discriminate]. cbn [rbind] in Hb.
    destruct (comprehension (getitem b) idx) as [ys|] eqn:Eys; [|discriminate].
    cbn [rbind] in Hb. inversion Hb; subst xb.
    destruct (IH ys eq_refl) as [xs [Hxs [Hl Hc]]].
    assert (Hi : (i < List.length a)%nat).
    { rewrite Hlen. apply nth_error_Some. rewrite Ey. discriminate. }
    destruct (nth_error a i) as [x|] eqn:Ex;
      [|apply nth_error_None in Ex; lia].
    exists (x :: xs). unfold getitem at 1. rewrite Ex. cbn [rbind].
    rewrite Hxs. cbn [rbind].
    split; [reflexivity|]. split; [simpl; now rewrite Hl|].
    unfold getitem at 1. rewrite (nth_error_combine a b i x y Ex Ey).
    cbn [rbind]. rewrite Hc. reflexivity.
Qed.

(** X20: when there are as many examples as labels, filtering the data
    returns as many examples as there are filtered targets, and each kept
    example is at the position of its own label: indexing the
    (example, label) pairs gives the pairs of filtered data and filtered
    targets. *)
Theorem filtered_data_aligned {A : Type} (data : list A) (labels : list Z)
    (n : nat) :
  List.length data = List.length labels ->
  exists d t,
    filtered_data data labels n = Ok d
    /\ filtered_targets labels n = Ok t
    /\ List.length d = List.length t
    /\ fancy_index (combine data labels) (filter_idx labels n)
       = Ok (combine d t).
Proof.
  intros Hlen.
  destruct (fancy_index_combine data labels (filter_idx labels n) Hlen _
              (filtered_targets_closed labels n))
    as [d [Hd [Hl Hc]]].
  exists d. eexists. split; [exact Hd|]. split; [apply filtered_targets_closed|].
  split; assumption.
Qed.

Lemma filtered_data_aligned_witness :
  exists d t,
    filtered_data [10%nat; 11%nat; 12%nat; 13%nat] [1%Z; 0%Z; 5%Z; 1%Z] 1 = Ok d
    /\ filtered_targets [1%Z; 0%Z; 5%Z; 1%Z] 1 = Ok t
    /\ List.length d = List.length t
    /\ fancy_index (combine [10%nat; 11%nat; 12%nat; 13%nat]
                      [1%Z; 0%Z; 5%Z; 1%Z])
         (filter_idx [1%Z; 0%Z; 5%Z; 1%Z] 1)
       = Ok (combine d t).
Proof.
  apply (filtered_data_aligned [10%nat; 11%nat; 12%nat; 13%nat]
           [1%Z; 0%Z; 5%Z; 1%Z] 1).
  reflexivity.
Defined.
